(** * The glut socket client: a shallow embedding

    The client under study is the [SocketClient] / [MessageSubject] pair of
    the RPC transport (the second document of
    [src/packages/http/tests/module.spec.ts], lines 179-686), its unit test
    ([src/unnamed/part_000]) and the chunking test (lines 718-796).

    The client is single-threaded and event driven.  One JavaScript turn
    (a call made by the application, or a socket event) runs to completion
    and is followed by the draining of the promise job queue.  The
    embedding keeps exactly that shape:

    - the fields of [SocketClient] are fields of [state], next to the
      heaps of the objects the client allocates (promises, subjects,
      sockets, the closures of [stream]);
    - a suspended [await] / [then] is a defunctionalised continuation
      ([cont]); settling a promise queues its continuations in
      registration order; [drain] runs the queue;
    - the rxjs [Subject] behind [MessageSubject] is modelled with its
      [isStopped] / [thrownError] / [observers] fields.

    Numbers are JavaScript doubles.  The three counters of the client
    start at 0 and only grow by one, so they are integers; [js_incr]
    writes out what [++] does when the counter reaches 2^53. *)

From Stdlib Require Import ZArith Lia QArith Qminmax Sorted.
From stdpp Require Import base option list gmap strings.

Close Scope Q_scope.

Set Default Proof Using "Type".

(** ** Numbers *)

Definition MAX_SAFE : Z := 2 ^ 53.

(** [n++] on a double holding an integer [0 <= n <= 2^53]: exact below
    2^53; at 2^53 the sum 2^53+1 is not representable and rounds back to
    2^53 (ties to even). *)
Definition js_incr (n : Z) : Z :=
  if (n <? MAX_SAFE)%Z then (n + 1)%Z else n.

(** ** Application values

    Values that cross the wire are opaque to the client, except where it
    hands them to the codec of @marcj/marshal; those calls stay symbolic. *)

#[local] Unset Elimination Schemes.
Inductive json :=
| JRaw (s : string)
| JArray (l : list json)
| JClassToPlain (entityName : string) (v : json)
| JPartialClassToPlain (entityName : string) (v : json)
| JPlainToClass (entityName : string) (v : json)
| JPartialPlainToClass (entityName : string) (v : json)
| JDate (v : json)
| JUndefined.
#[local] Set Elimination Schemes.

(** [ServerMessageActionType]. *)
Record ServerMessageActionType := {
  at_type : string;
  at_entityName : option string;
  at_partial : bool
}.

(** [type ActionTypes = { parameters, returnType }]. *)
Record ActionTypes := {
  parameters : list ServerMessageActionType;
  returnType : ServerMessageActionType
}.

(** ** Wire frames *)

(** [ClientMessageWithoutId]: what [sendMessage] is given. *)
Inductive ClientMessageWithoutId :=
| MsgAction (controller action : string) (args : list json)
| MsgActionTypes (controller action : string)
| MsgAuthenticate (token : string).

(** [ClientMessageAll]: what [send] serialises onto the socket. *)
Inductive ClientMessageAll :=
| CmRequest (id : Z) (body : ClientMessageWithoutId)
| CmEntityUnsubscribe (id : Z)
| CmObservableSubscribe (id : Z) (subscribeId : Z)
| CmObservableUnsubscribe (id : Z) (subscribeId : Z)
| CmCollectionUnsubscribe (id : Z).

Record EntityItem := { item_id : string; item_values : json }.

(** The payload of a frame of type ['type'], by its [returnType]. *)
Inductive TypeReply :=
| RtSubject (data : json)
| RtEntity (entityName : option string) (item : option EntityItem)
| RtObservable
| RtCollection (entityName : string)
| RtOther (returnType : string).

Inductive EntityNotice := EntityRemove | EntityPatch | EntityUpdate | EntityRemoveMany.

(** [ServerMessageAll], by its [type] field. *)
Inductive ServerBody :=
| SmType (t : TypeReply)
| SmNextJson (next : json)
| SmNextObservable (subscribeId : Z) (next : json)
| SmNextSubject (next : json)
| SmNextCollection (next : json)
| SmComplete
| SmError (error : string)
| SmErrorObservable (subscribeId : Z) (error : string)
| SmCompleteObservable (subscribeId : Z)
| SmActionTypesResult (t : ActionTypes)
| SmAuthenticateResult (result : bool)
| SmEntity (kind : EntityNotice) (payload : json)
| SmChannel
| SmOther (type : string).

(** A parsed inbound frame.  [sm_id] is the property key [message.id]
    selects in [replies]; the keys of [replies] are the decimal strings
    of the allocated identifiers, so a key is identified with its number. *)
Record ServerMessage := { sm_id : Z; sm_body : ServerBody }.

(** ** Errors and promise values *)

Inductive js_error :=
| ErrCouldNotConnect (reason : string)
| AuthorizationError
| ErrRemote (error : string)
| ErrInvalidMessage (reply : ServerMessage)
| EmptyError
| ErrSocketNotCreated
| ErrEntityNotKnown (entityName : option string)
| ErrInvalidEntityParameter (controller name : string) (index : nat) (entityName : string)
| ErrInvalidData
| ErrTypeError.

Inductive value :=
| VUndefined
| VBool (b : bool)
| VString (s : string)
| VMessage (m : ServerMessage)
| VActionTypes (t : ActionTypes)
| VJson (j : json)
| VStreamBehaviorSubject (h : nat)
| VEntitySubject (h : nat)
| VObservable (call : nat)
| VCollection (h : nat).

Inductive outcome :=
| Fulfilled (v : value)
| Rejected (e : js_error).

(** ** Continuations

    One constructor per [await] or [then] of the source. *)
Inductive cont :=
| KConnectWhile (out : nat)
| KConnectTry (out : nat)
| KSend (message : ClientMessageAll) (subject : nat)
| KActionTypes (controller actionName : string) (out : nat)
| KAuthenticate (out : nat)
| KOpenAuthenticated (sock : nat)
| KOpenConnected (sock : nat)
| KStream (call : nat).

Inductive promise :=
| Pending (reactions : list cont)
| Settled (o : outcome).

(** ** Subjects *)

(** The [TeardownLogic] a [MessageSubject] is built with: the closure of
    [sendMessage] that deletes the routing entry, or a value that is not a
    function (the tests build [new MessageSubject(0)]). *)
Inductive TeardownLogic :=
| TdDeleteReply (messageId : Z)
| TdNone.

(** The subscribers the sources attach to a [MessageSubject]. *)
Inductive observer :=
| ObsFirst (p : nat)
| ObsStream (call : nat)
| ObsProbe (k : nat).

#[global] Instance observer_eq_dec : EqDecision observer.
Proof. solve_decision. Defined.

Record MessageSubject := {
  teardown : TeardownLogic;
  isStopped : bool;
  thrownError : option js_error;
  observers : list observer
}.

(** ** Sockets *)

Record WebSocket := {
  ws_promise : nat;
  ws_sent : list ClientMessageAll;
  ws_closed : bool
}.

(** ** Live objects *)

Inductive LiveTeardown :=
| TdEntityUnsubscribe (id : Z)
| TdCollectionUnsubscribe (id : Z) (collection : nat).

Record EntitySubject := {
  es_entity : option (string * EntityItem);
  es_teardowns : list LiveTeardown;
  es_released : bool
}.

Record Collection := {
  col_entity : string;
  col_teardowns : list LiveTeardown;
  col_released : bool
}.

(** What [returnValue] holds: the [Observable] built for the exchange
    [id], or a [Collection]. *)
Inductive ReturnValue :=
| RvObservable (id : Z)
| RvCollection (h : nat).

(** [EntityState] ([./entity-state]) is not part of the sources: the
    table of mirrors, and what the client handed to it. *)
Record EntityState := {
  entitySubjects : gmap (string * string) nat;
  entityInbox : list ServerMessage;
  collectionInbox : list (option ReturnValue * json);
  unsubscribedCollections : list nat
}.

(** The variables a call of [stream] closes over. *)
Record StreamCall := {
  sc_controller : string;
  sc_name : string;
  sc_args : list json;
  sc_promise : nat;
  sc_types : option ActionTypes;
  sc_returnValue : option ReturnValue;
  sc_subscribers : gmap Z nat;
  sc_subscriberIdCounter : Z;
  sc_streamBehaviorSubject : option nat
}.

Inductive LiveEvent :=
| LvSubjectNext (h : nat) (v : json)
| LvSubjectComplete (h : nat)
| LvSubjectError (h : nat) (e : js_error)
| LvCollectionComplete (h : nat)
| LvCollectionError (h : nat) (e : js_error)
| LvObserverNext (call : nat) (observer : nat) (v : json)
| LvObserverError (call : nat) (observer : nat) (e : js_error)
| LvObserverComplete (call : nat) (observer : nat).

Inductive LogEvent :=
| ConsoleError (m : ServerMessage)
| HostReportError (e : js_error)
| UnhandledRejection (e : js_error)
| Uncaught (e : js_error)
| Live (e : LiveEvent).

(** ** The state *)

Record state := mkState {
  (* SocketClientConfig *)
  token : option string;
  (* SocketClient *)
  socket : option nat;
  connected : bool;
  loggedIn : bool;
  messageId : Z;
  connectionTries : Z;
  replies : gmap Z nat;
  connectionPromise : option nat;
  entityState : EntityState;
  cachedActionsTypes : gmap string (gmap string ActionTypes);
  (* RegisteredEntities of @marcj/marshal *)
  RegisteredEntities : gset string;
  (* heaps *)
  sockets : list WebSocket;
  promises : list promise;
  subjects : list MessageSubject;
  calls : list StreamCall;
  entities : list EntitySubject;
  collections : list Collection;
  behaviorSubjects : list json;
  probes : list bool;
  (* the job queue, and what the client printed or reported *)
  microtasks : list (cont * outcome);
  log : list LogEvent;
  (* instrumentation: every invocation of a subject's teardown *)
  teardownCalls : list TeardownLogic
}.

(** Field updates. *)

Definition set_socket v (s : state) : state :=
  mkState (token s) v (connected s) (loggedIn s) (messageId s) (connectionTries s) (replies s) (connectionPromise s) (entityState s) (cachedActionsTypes s) (RegisteredEntities s) (sockets s) (promises s) (subjects s) (calls s) (entities s) (collections s) (behaviorSubjects s) (probes s) (microtasks s) (log s) (teardownCalls s).

Definition set_connected v (s : state) : state :=
  mkState (token s) (socket s) v (loggedIn s) (messageId s) (connectionTries s) (replies s) (connectionPromise s) (entityState s) (cachedActionsTypes s) (RegisteredEntities s) (sockets s) (promises s) (subjects s) (calls s) (entities s) (collections s) (behaviorSubjects s) (probes s) (microtasks s) (log s) (teardownCalls s).

Definition set_loggedIn v (s : state) : state :=
  mkState (token s) (socket s) (connected s) v (messageId s) (connectionTries s) (replies s) (connectionPromise s) (entityState s) (cachedActionsTypes s) (RegisteredEntities s) (sockets s) (promises s) (subjects s) (calls s) (entities s) (collections s) (behaviorSubjects s) (probes s) (microtasks s) (log s) (teardownCalls s).

Definition set_messageId v (s : state) : state :=
  mkState (token s) (socket s) (connected s) (loggedIn s) v (connectionTries s) (replies s) (connectionPromise s) (entityState s) (cachedActionsTypes s) (RegisteredEntities s) (sockets s) (promises s) (subjects s) (calls s) (entities s) (collections s) (behaviorSubjects s) (probes s) (microtasks s) (log s) (teardownCalls s).

Definition set_connectionTries v (s : state) : state :=
  mkState (token s) (socket s) (connected s) (loggedIn s) (messageId s) v (replies s) (connectionPromise s) (entityState s) (cachedActionsTypes s) (RegisteredEntities s) (sockets s) (promises s) (subjects s) (calls s) (entities s) (collections s) (behaviorSubjects s) (probes s) (microtasks s) (log s) (teardownCalls s).

Definition set_replies v (s : state) : state :=
  mkState (token s) (socket s) (connected s) (loggedIn s) (messageId s) (connectionTries s) v (connectionPromise s) (entityState s) (cachedActionsTypes s) (RegisteredEntities s) (sockets s) (promises s) (subjects s) (calls s) (entities s) (collections s) (behaviorSubjects s) (probes s) (microtasks s) (log s) (teardownCalls s).

Definition set_connectionPromise v (s : state) : state :=
  mkState (token s) (socket s) (connected s) (loggedIn s) (messageId s) (connectionTries s) (replies s) v (entityState s) (cachedActionsTypes s) (RegisteredEntities s) (sockets s) (promises s) (subjects s) (calls s) (entities s) (collections s) (behaviorSubjects s) (probes s) (microtasks s) (log s) (teardownCalls s).

Definition set_entityState v (s : state) : state :=
  mkState (token s) (socket s) (connected s) (loggedIn s) (messageId s) (connectionTries s) (replies s) (connectionPromise s) v (cachedActionsTypes s) (RegisteredEntities s) (sockets s) (promises s) (subjects s) (calls s) (entities s) (collections s) (behaviorSubjects s) (probes s) (microtasks s) (log s) (teardownCalls s).

Definition set_cachedActionsTypes v (s : state) : state :=
  mkState (token s) (socket s) (connected s) (loggedIn s) (messageId s) (connectionTries s) (replies s) (connectionPromise s) (entityState s) v (RegisteredEntities s) (sockets s) (promises s) (subjects s) (calls s) (entities s) (collections s) (behaviorSubjects s) (probes s) (microtasks s) (log s) (teardownCalls s).

Definition set_sockets v (s : state) : state :=
  mkState (token s) (socket s) (connected s) (loggedIn s) (messageId s) (connectionTries s) (replies s) (connectionPromise s) (entityState s) (cachedActionsTypes s) (RegisteredEntities s) v (promises s) (subjects s) (calls s) (entities s) (collections s) (behaviorSubjects s) (probes s) (microtasks s) (log s) (teardownCalls s).

Definition set_promises v (s : state) : state :=
  mkState (token s) (socket s) (connected s) (loggedIn s) (messageId s) (connectionTries s) (replies s) (connectionPromise s) (entityState s) (cachedActionsTypes s) (RegisteredEntities s) (sockets s) v (subjects s) (calls s) (entities s) (collections s) (behaviorSubjects s) (probes s) (microtasks s) (log s) (teardownCalls s).

Definition set_subjects v (s : state) : state :=
  mkState (token s) (socket s) (connected s) (loggedIn s) (messageId s) (connectionTries s) (replies s) (connectionPromise s) (entityState s) (cachedActionsTypes s) (RegisteredEntities s) (sockets s) (promises s) v (calls s) (entities s) (collections s) (behaviorSubjects s) (probes s) (microtasks s) (log s) (teardownCalls s).

Definition set_calls v (s : state) : state :=
  mkState (token s) (socket s) (connected s) (loggedIn s) (messageId s) (connectionTries s) (replies s) (connectionPromise s) (entityState s) (cachedActionsTypes s) (RegisteredEntities s) (sockets s) (promises s) (subjects s) v (entities s) (collections s) (behaviorSubjects s) (probes s) (microtasks s) (log s) (teardownCalls s).

Definition set_entities v (s : state) : state :=
  mkState (token s) (socket s) (connected s) (loggedIn s) (messageId s) (connectionTries s) (replies s) (connectionPromise s) (entityState s) (cachedActionsTypes s) (RegisteredEntities s) (sockets s) (promises s) (subjects s) (calls s) v (collections s) (behaviorSubjects s) (probes s) (microtasks s) (log s) (teardownCalls s).

Definition set_collections v (s : state) : state :=
  mkState (token s) (socket s) (connected s) (loggedIn s) (messageId s) (connectionTries s) (replies s) (connectionPromise s) (entityState s) (cachedActionsTypes s) (RegisteredEntities s) (sockets s) (promises s) (subjects s) (calls s) (entities s) v (behaviorSubjects s) (probes s) (microtasks s) (log s) (teardownCalls s).

Definition set_behaviorSubjects v (s : state) : state :=
  mkState (token s) (socket s) (connected s) (loggedIn s) (messageId s) (connectionTries s) (replies s) (connectionPromise s) (entityState s) (cachedActionsTypes s) (RegisteredEntities s) (sockets s) (promises s) (subjects s) (calls s) (entities s) (collections s) v (probes s) (microtasks s) (log s) (teardownCalls s).

Definition set_probes v (s : state) : state :=
  mkState (token s) (socket s) (connected s) (loggedIn s) (messageId s) (connectionTries s) (replies s) (connectionPromise s) (entityState s) (cachedActionsTypes s) (RegisteredEntities s) (sockets s) (promises s) (subjects s) (calls s) (entities s) (collections s) (behaviorSubjects s) v (microtasks s) (log s) (teardownCalls s).

Definition set_microtasks v (s : state) : state :=
  mkState (token s) (socket s) (connected s) (loggedIn s) (messageId s) (connectionTries s) (replies s) (connectionPromise s) (entityState s) (cachedActionsTypes s) (RegisteredEntities s) (sockets s) (promises s) (subjects s) (calls s) (entities s) (collections s) (behaviorSubjects s) (probes s) v (log s) (teardownCalls s).

Definition set_log v (s : state) : state :=
  mkState (token s) (socket s) (connected s) (loggedIn s) (messageId s) (connectionTries s) (replies s) (connectionPromise s) (entityState s) (cachedActionsTypes s) (RegisteredEntities s) (sockets s) (promises s) (subjects s) (calls s) (entities s) (collections s) (behaviorSubjects s) (probes s) (microtasks s) v (teardownCalls s).

Definition set_teardownCalls v (s : state) : state :=
  mkState (token s) (socket s) (connected s) (loggedIn s) (messageId s) (connectionTries s) (replies s) (connectionPromise s) (entityState s) (cachedActionsTypes s) (RegisteredEntities s) (sockets s) (promises s) (subjects s) (calls s) (entities s) (collections s) (behaviorSubjects s) (probes s) (microtasks s) (log s) v.

Definition set_subject (sid : nat) (sj : MessageSubject) (s : state) : state :=
  set_subjects (<[sid := sj]> (subjects s)) s.

Definition set_call (c : nat) (call : StreamCall) (s : state) : state :=
  set_calls (<[c := call]> (calls s)) s.

Definition add_log (e : LogEvent) (s : state) : state :=
  set_log (log s ++ [e]) s.

(** ** Promises and the job queue *)

Definition new_promise (s : state) : nat * state :=
  (length (promises s), set_promises (promises s ++ [Pending []]) s).

(** [resolve] / [reject] of a promise: the first settlement wins and
    queues one job per registered reaction, in registration order. *)
Definition settle (p : nat) (o : outcome) (s : state) : state :=
  match promises s !! p with
  | Some (Pending ks) =>
      set_microtasks (microtasks s ++ map (λ k, (k, o)) ks)
        (set_promises (<[p := Settled o]> (promises s)) s)
  | _ => s
  end.

Definition resolve (p : nat) (v : value) : state → state := settle p (Fulfilled v).
Definition reject (p : nat) (e : js_error) : state → state := settle p (Rejected e).

(** [await p] / [p.then(...)]: the continuation is registered on a
    pending promise, and queued at once on a settled one. *)
Definition on_settled (p : nat) (k : cont) (s : state) : state :=
  match promises s !! p with
  | Some (Pending ks) => set_promises (<[p := Pending (ks ++ [k])]> (promises s)) s
  | Some (Settled o) => set_microtasks (microtasks s ++ [(k, o)]) s
  | None => s
  end.

(** ** MessageSubject *)

Definition new_subject (t : TeardownLogic) (s : state) : nat * state :=
  (length (subjects s),
   set_subjects (subjects s ++ [{| teardown := t; isStopped := false;
                                   thrownError := None; observers := [] |}]) s).

Definition new_probe (s : state) : nat * state :=
  (length (probes s), set_probes (probes s ++ [false]) s).

(** [tearDown] of @marcj/estdlib-rxjs: a teardown that is a function is
    called, any other value is left alone.  The only function the client
    passes is [() => { delete this.replies[messageId]; }]. *)
Definition tearDown (t : TeardownLogic) (s : state) : state :=
  match t with
  | TdDeleteReply messageId =>
      set_replies (delete messageId (replies s))
        (set_teardownCalls (teardownCalls s ++ [t]) s)
  | TdNone => s
  end.

(** [Subject.complete()] walks a copy of [observers].  A subscriber of
    [firstAndClose] that is completed without a value rejects with
    [EmptyError] and runs its added teardown [this.close()]: the teardown
    is invoked again, and the nested [complete()] completes the subscribers
    that follow, which the walk below does in the same order. *)
Fixpoint complete_observers (t : TeardownLogic) (os : list observer) (s : state) : state :=
  match os with
  | [] => s
  | ObsFirst p :: os' => complete_observers t os' (tearDown t (reject p EmptyError s))
  | ObsStream _ :: os' => complete_observers t os' s
  | ObsProbe k :: os' => complete_observers t os' (set_probes (<[k := true]> (probes s)) s)
  end.

(** [Subject.error(err)] likewise; once a [firstAndClose] subscriber has
    closed the subject, the subscribers after it are completed and the
    error no longer reaches them. *)
Fixpoint error_observers (t : TeardownLogic) (e : js_error) (os : list observer) (s : state) : state :=
  match os with
  | [] => s
  | ObsFirst p :: os' => complete_observers t os' (tearDown t (reject p e s))
  | ObsStream _ :: os' => error_observers t e os' (add_log (HostReportError e) s)
  | ObsProbe k :: os' => error_observers t e os' (set_probes (<[k := true]> (probes s)) s)
  end.

Definition complete (sid : nat) (s : state) : state :=
  match subjects s !! sid with
  | Some sj =>
      complete_observers (teardown sj) (observers sj)
        (set_subject sid {| teardown := teardown sj; isStopped := true;
                            thrownError := thrownError sj; observers := [] |} s)
  | None => s
  end.

Definition error (sid : nat) (e : js_error) (s : state) : state :=
  match subjects s !! sid with
  | Some sj =>
      error_observers (teardown sj) e (observers sj)
        (set_subject sid {| teardown := teardown sj; isStopped := true;
                            thrownError := Some e; observers := [] |} s)
  | None => s
  end.

(** [MessageSubject.close()]. *)
Definition close (sid : nat) (s : state) : state :=
  match subjects s !! sid with
  | Some sj => complete sid (tearDown (teardown sj) s)
  | None => s
  end.

(** Unsubscribing from a subject that is not stopped takes the
    subscriber out of [observers] (each subscriber is in the list once). *)
Definition unsubscribe (sid : nat) (o : observer) (s : state) : state :=
  match subjects s !! sid with
  | Some sj =>
      if isStopped sj then s
      else set_subject sid {| teardown := teardown sj; isStopped := isStopped sj;
                              thrownError := thrownError sj;
                              observers := filter (λ o', o' ≠ o) (observers sj) |} s
  | None => s
  end.

(** [Subject.subscribe]: a subject that has failed hands its error to the
    new subscriber, a stopped one completes it, and in both cases the
    subscription comes back closed, so that a teardown added to it
    afterwards runs at once. *)
Definition subscribe (sid : nat) (o : observer) (s : state) : state :=
  match subjects s !! sid with
  | Some sj =>
      match thrownError sj, isStopped sj with
      | Some e, _ =>
          match o with
          | ObsFirst p => close sid (reject p e s)
          | ObsStream _ => add_log (HostReportError e) s
          | ObsProbe k => set_probes (<[k := true]> (probes s)) s
          end
      | None, true =>
          match o with
          | ObsFirst p => close sid (reject p EmptyError s)
          | ObsStream _ => s
          | ObsProbe k => set_probes (<[k := true]> (probes s)) s
          end
      | None, false =>
          set_subject sid {| teardown := teardown sj; isStopped := false;
                             thrownError := None;
                             observers := observers sj ++ [o] |} s
      end
  | None => s
  end.

(** [MessageSubject.firstAndClose()]: the promise is resolved by the
    first value, rejected by an error of the subject, and the added
    teardown closes the subject. *)
Definition firstAndClose (sid : nat) (s : state) : nat * state :=
  let '(p, s) := new_promise s in
  (p, subscribe sid (ObsFirst p) s).

(** ** SocketClient: connecting and sending *)

(** [send]: throws when no socket was created; otherwise the frame is
    handed to the socket. *)
Definition send (message : ClientMessageAll) (s : state) : js_error + state :=
  match socket s with
  | None => inl ErrSocketNotCreated
  | Some k =>
      match sockets s !! k with
      | Some ws =>
          inr (set_sockets (<[k := {| ws_promise := ws_promise ws;
                                      ws_sent := ws_sent ws ++ [message];
                                      ws_closed := ws_closed ws |}]> (sockets s)) s)
      | None => inr s
      end
  end.

(** [doConnect]: counts the try, creates the socket and returns the
    promise its [onerror] / [onopen] handlers settle. *)
Definition doConnect (s : state) : nat * state :=
  let s := set_connectionTries (js_incr (connectionTries s)) s in
  let sock := length (sockets s) in
  let '(p, s) := new_promise s in
  let s := set_sockets (sockets s ++ [{| ws_promise := p; ws_sent := []; ws_closed := false |}]) s in
  (p, set_socket (Some sock) s).

(** The body of [connect], entered at the head of its [while] loop with
    [out] the promise the call returned. *)
Definition connect_loop (out : nat) (s : state) : state :=
  match connectionPromise s with
  | Some cp => on_settled cp (KConnectWhile out) s
  | None =>
      if connected s then resolve out VUndefined s
      else
        let '(cp, s) := doConnect s in
        let s := set_connectionPromise (Some cp) s in
        on_settled cp (KConnectTry out) s
  end.

Definition connect (s : state) : nat * state :=
  let '(out, s) := new_promise s in
  (out, connect_loop out s).

(** [sendMessage]: allocates the identifier, builds the subject, installs
    the routing entry, and only then asks for the connection. *)
Definition sendMessage (messageWithoutId : ClientMessageWithoutId) (s : state) : nat * state :=
  let s := set_messageId (js_incr (messageId s)) s in
  let messageId := messageId s in
  let message := CmRequest messageId messageWithoutId in
  let '(subject, s) := new_subject (TdDeleteReply messageId) s in
  let s := set_replies (<[messageId := subject]> (replies s)) s in
  let '(p, s) := connect s in
  (subject, on_settled p (KSend message subject) s).

(** [authenticate], up to its [await]. *)
Definition authenticate (s : state) : nat * state :=
  let '(out, s) := new_promise s in
  let '(subject, s) := sendMessage (MsgAuthenticate (default "" (token s))) s in
  let '(p, s) := firstAndClose subject s in
  (out, on_settled p (KAuthenticate out) s).

(** [onConnected] is an empty async method. *)
Definition onConnected (s : state) : nat * state :=
  let '(p, s) := new_promise s in
  (p, resolve p VUndefined s).

(** [config.token] is truthy. *)
Definition has_token (s : state) : bool :=
  match token s with
  | Some t => negb (String.eqb t "")
  | None => false
  end.

(** [getActionTypes], up to its [await]. *)
Definition getActionTypes (controller actionName : string) (s : state) : nat * state :=
  let '(out, s) := new_promise s in
  let s := match cachedActionsTypes s !! controller with
           | Some _ => s
           | None => set_cachedActionsTypes (<[controller := ∅]> (cachedActionsTypes s)) s
           end in
  match cachedActionsTypes s !! controller ≫= (.!! actionName) with
  | Some types => (out, resolve out (VActionTypes types) s)
  | None =>
      let '(subject, s) := sendMessage (MsgActionTypes controller actionName) s in
      let '(p, s) := firstAndClose subject s in
      (out, on_settled p (KActionTypes controller actionName out) s)
  end.

Definition disconnect (s : state) : state :=
  let s := set_loggedIn false (set_connected false s) in
  match socket s with
  | Some k =>
      let s := match sockets s !! k with
               | Some ws => set_sockets (<[k := {| ws_promise := ws_promise ws;
                                                   ws_sent := ws_sent ws;
                                                   ws_closed := true |}]> (sockets s)) s
               | None => s
               end in
      set_socket None s
  | None => s
  end.

(** ** Entity mirrors *)

(** Modelled from the spec: [EntityState.hasEntitySubject] of
    [./entity-state], which is not among the sources.  Section 4.5:
    "hasEntitySubject / handleEntity provide find-or-create so concurrent
    calls referencing the same entity key converge on one mirror
    instance"; a mirror is "identified by (entityKind, primaryKey)". *)
Definition hasEntitySubject (classType : string) (id : string) (s : state) : bool :=
  bool_decide (is_Some (entitySubjects (entityState s) !! (classType, id))).

(** Modelled from the spec: [EntityState.handleEntity], find-or-create
    on the key (entity kind, primary key). *)
Definition handleEntity (classType : string) (item : EntityItem) (s : state) : nat * state :=
  let es := entityState s in
  match entitySubjects es !! (classType, item_id item) with
  | Some h => (h, s)
  | None =>
      let h := length (entities s) in
      (h, set_entityState {| entitySubjects := <[(classType, item_id item) := h]> (entitySubjects es);
                             entityInbox := entityInbox es;
                             collectionInbox := collectionInbox es;
                             unsubscribedCollections := unsubscribedCollections es |}
            (set_entities (entities s ++ [{| es_entity := Some (classType, item);
                                             es_teardowns := []; es_released := false |}]) s))
  end.

(** Modelled from the spec: [EntityState.handleEntityMessage] receives
    the broadcast entity notifications; what it does with them is outside
    the client, so they are only recorded. *)
Definition handleEntityMessage (message : ServerMessage) (s : state) : state :=
  let es := entityState s in
  set_entityState {| entitySubjects := entitySubjects es;
                     entityInbox := entityInbox es ++ [message];
                     collectionInbox := collectionInbox es;
                     unsubscribedCollections := unsubscribedCollections es |} s.

(** Modelled from the spec: [EntityState.handleCollectionNext], recorded
    in the same way. *)
Definition handleCollectionNext (returnValue : option ReturnValue) (next : json) (s : state) : state :=
  let es := entityState s in
  set_entityState {| entitySubjects := entitySubjects es;
                     entityInbox := entityInbox es;
                     collectionInbox := collectionInbox es ++ [(returnValue, next)];
                     unsubscribedCollections := unsubscribedCollections es |} s.

(** Modelled from the spec: [EntityState.unsubscribeCollection]
    ("also deregister from the Entity Mirror Store"). *)
Definition unsubscribeCollection (collection : nat) (s : state) : state :=
  let es := entityState s in
  set_entityState {| entitySubjects := entitySubjects es;
                     entityInbox := entityInbox es;
                     collectionInbox := collectionInbox es;
                     unsubscribedCollections := unsubscribedCollections es ++ [collection] |} s.

(** Modelled from the spec: [EntitySubject.addTearDown] of
    @marcj/glut-core registers what runs "on mirror release". *)
Definition addTearDown (h : nat) (t : LiveTeardown) (s : state) : state :=
  match entities s !! h with
  | Some e =>
      set_entities (<[h := {| es_entity := es_entity e;
                              es_teardowns := es_teardowns e ++ [t];
                              es_released := es_released e |}]> (entities s)) s
  | None => s
  end.

(** The two teardown closures [stream] registers on live objects. *)
Definition run_live_teardown (t : LiveTeardown) (s : state) : state :=
  match t with
  | TdEntityUnsubscribe id =>
      match send (CmEntityUnsubscribe id) s with
      | inr s' => s'
      | inl e => add_log (Uncaught e) s
      end
  | TdCollectionUnsubscribe id collection =>
      let s := unsubscribeCollection collection s in
      match send (CmCollectionUnsubscribe id) s with
      | inr s' => s'
      | inl e => add_log (Uncaught e) s
      end
  end.

(** Modelled from the spec: releasing an entity mirror runs the
    teardowns registered on it, once ("wiring teardown so the server is
    told exactly once when the client stops caring"). *)
Definition releaseEntity (h : nat) (s : state) : state :=
  match entities s !! h with
  | Some e =>
      if es_released e then s
      else
        foldl (λ s t, run_live_teardown t s)
          (set_entities (<[h := {| es_entity := es_entity e;
                                   es_teardowns := es_teardowns e;
                                   es_released := true |}]> (entities s)) s)
          (es_teardowns e)
  | None => s
  end.

(** Modelled from the spec: tearing a live collection down runs its
    registered teardowns, once. *)
Definition releaseCollection (h : nat) (s : state) : state :=
  match collections s !! h with
  | Some c =>
      if col_released c then s
      else
        foldl (λ s t, run_live_teardown t s)
          (set_collections (<[h := {| col_entity := col_entity c;
                                      col_teardowns := col_teardowns c;
                                      col_released := true |}]> (collections s)) s)
          (col_teardowns c)
  | None => s
  end.

(** ** SocketClient.stream *)

(** One turn of the argument loop of [stream]. *)
Definition serializeArg (controller name : string) (registered : gset string)
    (i : nat) (type : ServerMessageActionType) (a : json) : js_error + json :=
  match at_entityName type with
  | Some entityName =>
      if String.eqb (at_type type) "Entity" && negb (String.eqb entityName "") then
        if bool_decide (entityName ∈ registered) then
          inr (if at_partial type then JPartialClassToPlain entityName a
               else JClassToPlain entityName a)
        else inl (ErrInvalidEntityParameter controller name i entityName)
      else inr a
  | None => inr a
  end.

(** [for (const i of eachKey(args))]: [types.parameters[i]] is read for
    every argument; past the declared parameters it is [undefined] and
    reading its [type] throws. *)
Fixpoint serializeArgs (controller name : string) (registered : gset string)
    (ps : list ServerMessageActionType) (i : nat) (args : list json) : js_error + list json :=
  match args with
  | [] => inr []
  | a :: args' =>
      match ps !! i with
      | None => inl ErrTypeError
      | Some type =>
          match serializeArg controller name registered i type a with
          | inl e => inl e
          | inr a' =>
              match serializeArgs controller name registered ps (S i) args' with
              | inl e => inl e
              | inr rest => inr (a' :: rest)
              end
          end
      end
  end.

Definition plainToClassAll (partial : bool) (classType : string) (next : json) : json :=
  let convert := if partial then JPartialPlainToClass classType else JPlainToClass classType in
  match next with
  | JArray l => JArray (map convert l)
  | _ => convert next
  end.

(** [deserializeResult], local to [stream]: an unknown entity class
    rejects the call, closes the subject and yields [undefined]. *)
Definition deserializeResult (call : StreamCall) (sid : nat) (next : json) (s : state) : json * state :=
  match sc_types call with
  | Some types =>
      let rt := returnType types in
      if String.eqb (at_type rt) "Date" then (JDate next, s)
      else if String.eqb (at_type rt) "Entity" then
        let entityName := default "undefined" (at_entityName rt) in
        if bool_decide (entityName ∈ RegisteredEntities s) then
          (plainToClassAll (at_partial rt) entityName next, s)
        else
          (JUndefined,
           close sid (reject (sc_promise call) (ErrEntityNotKnown (at_entityName rt)) s))
      else (next, s)
  | None => (next, s)
  end.

(** An exception thrown by the handler given to [subject.subscribe]:
    rxjs unsubscribes the handler and reports the error to the host. *)
Definition handler_throws (c sid : nat) (e : js_error) (s : state) : state :=
  add_log (HostReportError e) (unsubscribe sid (ObsStream c) s).

Definition with_returnValue (rv : option ReturnValue) (call : StreamCall) : StreamCall :=
  {| sc_controller := sc_controller call; sc_name := sc_name call; sc_args := sc_args call;
     sc_promise := sc_promise call; sc_types := sc_types call; sc_returnValue := rv;
     sc_subscribers := sc_subscribers call;
     sc_subscriberIdCounter := sc_subscriberIdCounter call;
     sc_streamBehaviorSubject := sc_streamBehaviorSubject call |}.

Definition with_streamBehaviorSubject (h : option nat) (call : StreamCall) : StreamCall :=
  {| sc_controller := sc_controller call; sc_name := sc_name call; sc_args := sc_args call;
     sc_promise := sc_promise call; sc_types := sc_types call;
     sc_returnValue := sc_returnValue call;
     sc_subscribers := sc_subscribers call;
     sc_subscriberIdCounter := sc_subscriberIdCounter call;
     sc_streamBehaviorSubject := h |}.

Definition with_subscribers (m : gmap Z nat) (n : Z) (call : StreamCall) : StreamCall :=
  {| sc_controller := sc_controller call; sc_name := sc_name call; sc_args := sc_args call;
     sc_promise := sc_promise call; sc_types := sc_types call;
     sc_returnValue := sc_returnValue call;
     sc_subscribers := m;
     sc_subscriberIdCounter := n;
     sc_streamBehaviorSubject := sc_streamBehaviorSubject call |}.

Definition with_types (t : ActionTypes) (args : list json) (call : StreamCall) : StreamCall :=
  {| sc_controller := sc_controller call; sc_name := sc_name call; sc_args := args;
     sc_promise := sc_promise call; sc_types := Some t;
     sc_returnValue := sc_returnValue call;
     sc_subscribers := sc_subscribers call;
     sc_subscriberIdCounter := sc_subscriberIdCounter call;
     sc_streamBehaviorSubject := sc_streamBehaviorSubject call |}.

(** The branch [reply.type === 'type'] of the handler. *)
Definition stream_type (c sid : nat) (call : StreamCall) (reply : ServerMessage)
    (t : TypeReply) (s : state) : state :=
  match t with
  | RtSubject data =>
      let h := length (behaviorSubjects s) in
      let s := set_behaviorSubjects (behaviorSubjects s ++ [data]) s in
      let s := set_call c (with_streamBehaviorSubject (Some h) call) s in
      resolve (sc_promise call) (VStreamBehaviorSubject h) s
  | RtEntity entityName (Some item) =>
      let classType := default "" entityName in
      if bool_decide (classType ∈ RegisteredEntities s) then
        if hasEntitySubject classType (item_id item) s then
          let '(subject, s) := handleEntity classType item s in
          resolve (sc_promise call) (VEntitySubject subject) s
        else
          let '(subject, s) := handleEntity classType item s in
          let s := addTearDown subject (TdEntityUnsubscribe (sm_id reply)) s in
          resolve (sc_promise call) (VEntitySubject subject) s
      else handler_throws c sid (ErrEntityNotKnown entityName) s
  | RtEntity _ None =>
      let h := length (entities s) in
      let s := set_entities (entities s ++ [{| es_entity := None; es_teardowns := [];
                                               es_released := false |}]) s in
      resolve (sc_promise call) (VEntitySubject h) s
  | RtObservable =>
      let s := set_call c (with_returnValue (Some (RvObservable (sm_id reply))) call) s in
      resolve (sc_promise call) (VObservable c) s
  | RtCollection entityName =>
      if bool_decide (entityName ∈ RegisteredEntities s) then
        let h := length (collections s) in
        let s := set_collections
                   (collections s ++ [{| col_entity := entityName;
                                         col_teardowns := [TdCollectionUnsubscribe (sm_id reply) h];
                                         col_released := false |}]) s in
        let s := set_call c (with_returnValue (Some (RvCollection h)) call) s in
        resolve (sc_promise call) (VCollection h) s
      else handler_throws c sid (ErrEntityNotKnown (Some entityName)) s
  | RtOther _ => s
  end.

(** The handler [stream] subscribes to the subject of its exchange. *)
Definition stream_reply (c sid : nat) (reply : ServerMessage) (s : state) : state :=
  match calls s !! c with
  | None => s
  | Some call =>
      match sm_body reply with
      | SmType t => stream_type c sid call reply t s
      | SmNextJson next =>
          let '(v, s) := deserializeResult call sid next s in
          resolve (sc_promise call) (VJson v) s
      | SmNextObservable subscribeId next =>
          match sc_subscribers call !! subscribeId with
          | Some o =>
              let '(v, s) := deserializeResult call sid next s in
              add_log (Live (LvObserverNext c o v)) s
          | None => s
          end
      | SmNextSubject next =>
          match sc_streamBehaviorSubject call with
          | Some h =>
              let '(v, s) := deserializeResult call sid next s in
              add_log (Live (LvSubjectNext h v)) s
          | None => s
          end
      | SmNextCollection next => handleCollectionNext (sc_returnValue call) next s
      | SmComplete =>
          let s := match sc_returnValue call with
                   | Some (RvCollection h) => add_log (Live (LvCollectionComplete h)) s
                   | _ => s
                   end in
          let s := match sc_streamBehaviorSubject call with
                   | Some h => add_log (Live (LvSubjectComplete h)) s
                   | None => s
                   end in
          close sid s
      | SmError err =>
          let e := ErrRemote err in
          let s := match sc_returnValue call, sc_streamBehaviorSubject call with
                   | Some (RvCollection h), _ => add_log (Live (LvCollectionError h e)) s
                   | _, Some h => add_log (Live (LvSubjectError h e)) s
                   | _, None => reject (sc_promise call) e s
                   end in
          close sid s
      | SmErrorObservable subscribeId err =>
          let s := match sc_subscribers call !! subscribeId with
                   | Some o => add_log (Live (LvObserverError c o (ErrRemote err))) s
                   | None => s
                   end in
          let s := set_call c (with_subscribers (delete subscribeId (sc_subscribers call))
                                 (sc_subscriberIdCounter call) call) s in
          close sid s
      | SmCompleteObservable subscribeId =>
          let s := match sc_subscribers call !! subscribeId with
                   | Some o => add_log (Live (LvObserverComplete c o)) s
                   | None => s
                   end in
          let s := set_call c (with_subscribers (delete subscribeId (sc_subscribers call))
                                 (sc_subscriberIdCounter call) call) s in
          close sid s
      | _ => s
      end
  end.

(** ** Delivery of a value to a subject *)

Definition observer_next (sid : nat) (o : observer) (v : value) (s : state) : state :=
  match o with
  | ObsFirst p => close sid (unsubscribe sid o (resolve p v s))
  | ObsStream c =>
      match v with
      | VMessage reply => stream_reply c sid reply s
      | _ => s
      end
  | ObsProbe _ => s
  end.

Definition subject_stopped (sid : nat) (s : state) : bool :=
  match subjects s !! sid with
  | Some sj => isStopped sj
  | None => true
  end.

(** [Subject.next(value)] walks a copy of [observers]; a subscriber that
    closed the subject has completed every subscriber after it. *)
Fixpoint next_observers (sid : nat) (v : value) (os : list observer) (s : state) : state :=
  match os with
  | [] => s
  | o :: os' =>
      if subject_stopped sid s then s
      else next_observers sid v os' (observer_next sid o v s)
  end.

Definition next (sid : nat) (v : value) (s : state) : state :=
  match subjects s !! sid with
  | Some sj => if isStopped sj then s else next_observers sid v (observers sj) s
  | None => s
  end.

(** [onMessage], given what [JSON.parse] returned ([None] for a falsy
    value, on which the method throws). *)
Definition onMessage (message : option ServerMessage) (s : state) : state :=
  match message with
  | None => add_log (Uncaught ErrInvalidData) s
  | Some m =>
      match sm_body m with
      | SmEntity _ _ => handleEntityMessage m s
      | SmChannel => s
      | _ =>
          match replies s !! sm_id m with
          | Some subject => next subject (VMessage m) s
          | None => add_log (ConsoleError m) s
          end
      end
  end.

(** ** Continuations and the job queue *)

Definition run_cont (k : cont) (o : outcome) (s : state) : state :=
  match k, o with
  (* connect: [while (this.connectionPromise) await this.connectionPromise] *)
  | KConnectWhile out, Fulfilled _ => connect_loop out s
  | KConnectWhile out, Rejected e => reject out e s
  (* connect: [try { await this.connectionPromise } finally { delete ... }] *)
  | KConnectTry out, Fulfilled _ => resolve out VUndefined (set_connectionPromise None s)
  | KConnectTry out, Rejected e => reject out e (set_connectionPromise None s)
  (* sendMessage: [this.connect().then(() => this.send(message), error => subject.error(error))] *)
  | KSend message subject, Fulfilled _ =>
      match send message s with
      | inr s' => s'
      | inl e => add_log (UnhandledRejection e) s
      end
  | KSend message subject, Rejected e => error subject e s
  (* getActionTypes, after [await ... .firstAndClose()] *)
  | KActionTypes controller actionName out, Fulfilled (VMessage reply) =>
      match sm_body reply with
      | SmError err => reject out (ErrRemote err) s
      | SmActionTypesResult t =>
          let types := {| parameters := parameters t; returnType := returnType t |} in
          let inner := default ∅ (cachedActionsTypes s !! controller) in
          resolve out (VActionTypes types)
            (set_cachedActionsTypes
               (<[controller := <[actionName := types]> inner]> (cachedActionsTypes s)) s)
      | _ => reject out (ErrInvalidMessage reply) s
      end
  | KActionTypes _ _ out, Fulfilled _ => reject out ErrTypeError s
  | KActionTypes _ _ out, Rejected e => reject out e s
  (* authenticate, after [await ... .firstAndClose()] *)
  | KAuthenticate out, Fulfilled (VMessage reply) =>
      let s := match sm_body reply with
               | SmAuthenticateResult result => set_loggedIn result s
               | _ => s
               end in
      match sm_body reply with
      | SmError err => reject out (ErrRemote err) s
      | _ => resolve out (VBool (loggedIn s)) s
      end
  | KAuthenticate out, Fulfilled _ => reject out ErrTypeError s
  | KAuthenticate out, Rejected e => reject out e s
  (* socket.onopen, after [await this.authenticate()] *)
  | KOpenAuthenticated sock, Fulfilled v =>
      match sockets s !! sock with
      | Some ws =>
          match v with
          | VBool true =>
              let '(p, s) := onConnected s in
              on_settled p (KOpenConnected sock) s
          | _ => reject (ws_promise ws) AuthorizationError s
          end
      | None => s
      end
  | KOpenAuthenticated sock, Rejected e => add_log (UnhandledRejection e) s
  (* socket.onopen, after [await this.onConnected()] *)
  | KOpenConnected sock, Fulfilled _ =>
      match sockets s !! sock with
      | Some ws =>
          resolve (ws_promise ws) VUndefined (set_connectionTries 0%Z (set_connected true s))
      | None => s
      end
  | KOpenConnected sock, Rejected e => add_log (UnhandledRejection e) s
  (* stream, after [await this.getActionTypes(controller, name)] *)
  | KStream c, Fulfilled (VActionTypes types) =>
      match calls s !! c with
      | Some call =>
          match serializeArgs (sc_controller call) (sc_name call) (RegisteredEntities s)
                  (parameters types) 0 (sc_args call) with
          | inl e => reject (sc_promise call) e s
          | inr args =>
              let s := set_call c (with_types types args call) s in
              let '(subject, s) :=
                sendMessage (MsgAction (sc_controller call) (sc_name call) args) s in
              subscribe subject (ObsStream c) s
          end
      | None => s
      end
  | KStream c, Fulfilled _ => s
  | KStream c, Rejected e =>
      match calls s !! c with
      | Some call => reject (sc_promise call) e s
      | None => s
      end
  end.

(** The job queue is drained first in, first out. *)
Fixpoint drain (fuel : nat) (s : state) : state :=
  match fuel with
  | 0 => s
  | S fuel' =>
      match microtasks s with
      | [] => s
      | (k, o) :: rest => drain fuel' (run_cont k o (set_microtasks rest s))
      end
  end.

(** ** Socket events *)

(** [socket.onerror]. *)
Definition socket_onerror (sock : nat) (reason : string) (s : state) : state :=
  match sockets s !! sock with
  | Some ws =>
      let s := set_connected false s in
      if (connectionTries s =? 1)%Z then reject (ws_promise ws) (ErrCouldNotConnect reason) s
      else s
  | None => s
  end.

(** [socket.onopen], up to its first [await]. *)
Definition socket_onopen (sock : nat) (s : state) : state :=
  match sockets s !! sock with
  | Some ws =>
      if has_token s then
        let '(p, s) := authenticate s in
        on_settled p (KOpenAuthenticated sock) s
      else
        let '(p, s) := onConnected s in
        on_settled p (KOpenConnected sock) s
  | None => s
  end.

(** [socket.onmessage]. *)
Definition socket_onmessage (sock : nat) (message : option ServerMessage) (s : state) : state :=
  match sockets s !! sock with
  | Some _ => onMessage message s
  | None => s
  end.

(** ** Calls made by the application *)

(** [stream], up to its [await]. *)
Definition stream (controller name : string) (args : list json) (s : state) : nat * state :=
  let '(out, s) := new_promise s in
  let c := length (calls s) in
  let s := set_calls (calls s ++ [{| sc_controller := controller; sc_name := name;
                                     sc_args := args; sc_promise := out;
                                     sc_types := None; sc_returnValue := None;
                                     sc_subscribers := ∅; sc_subscriberIdCounter := 0%Z;
                                     sc_streamBehaviorSubject := None |}]) s in
  let '(p, s) := getActionTypes controller name s in
  (out, on_settled p (KStream c) s).

(** Subscribing [observer] to the [Observable] a call resolved with. *)
Definition observable_subscribe (c observer : nat) (s : state) : option Z * state :=
  match calls s !! c with
  | Some call =>
      match sc_returnValue call with
      | Some (RvObservable id) =>
          let subscriberId := js_incr (sc_subscriberIdCounter call) in
          let s := set_call c (with_subscribers (<[subscriberId := observer]> (sc_subscribers call))
                                 subscriberId call) s in
          (Some subscriberId,
           match send (CmObservableSubscribe id subscriberId) s with
           | inr s' => s'
           | inl e => add_log (Uncaught e) s
           end)
      | _ => (None, s)
      end
  | None => (None, s)
  end.

(** The [unsubscribe] that subscription returned. *)
Definition observable_unsubscribe (c : nat) (subscriberId : Z) (s : state) : state :=
  match calls s !! c with
  | Some call =>
      match sc_returnValue call with
      | Some (RvObservable id) =>
          match send (CmObservableUnsubscribe id subscriberId) s with
          | inr s' => s'
          | inl e => add_log (Uncaught e) s
          end
      | _ => s
      end
  | None => s
  end.

(** A client as its constructor leaves it. *)
Definition init (tok : option string) (registered : gset string) : state :=
  {| token := tok; socket := None; connected := false; loggedIn := false;
     messageId := 0; connectionTries := 0; replies := ∅; connectionPromise := None;
     entityState := {| entitySubjects := ∅; entityInbox := []; collectionInbox := [];
                       unsubscribedCollections := [] |};
     cachedActionsTypes := ∅; RegisteredEntities := registered;
     sockets := []; promises := []; subjects := []; calls := []; entities := [];
     collections := []; behaviorSubjects := []; probes := [];
     microtasks := []; log := []; teardownCalls := [] |}.

(** [this.sendMessage(m).firstAndClose()], the one-shot exchange of
    [getActionTypes] and [authenticate]: the subject and the promise. *)
Definition sendMessage_firstAndClose (m : ClientMessageWithoutId) (s : state) : nat * nat * state :=
  let '(subject, s) := sendMessage m s in
  let '(p, s) := firstAndClose subject s in
  (subject, p, s).

(** ** Turns

    What can start a turn: a call of the application, or a socket event. *)
Inductive event :=
| EConnect
| EDisconnect
| ESendMessage (m : ClientMessageWithoutId)
| EFirstAndClose (sid : nat)
| EClose (sid : nat)
| EGetActionTypes (controller actionName : string)
| EStream (controller name : string) (args : list json)
| EObservableSubscribe (c observer : nat)
| EObservableUnsubscribe (c : nat) (subscriberId : Z)
| EReleaseEntity (h : nat)
| EReleaseCollection (h : nat)
| ESocketError (sock : nat) (reason : string)
| ESocketOpen (sock : nat)
| ESocketMessage (sock : nat) (message : option ServerMessage).

Definition handle (e : event) (s : state) : state :=
  match e with
  | EConnect => (connect s).2
  | EDisconnect => disconnect s
  | ESendMessage m => (sendMessage m s).2
  | EFirstAndClose sid => (firstAndClose sid s).2
  | EClose sid => close sid s
  | EGetActionTypes controller actionName => (getActionTypes controller actionName s).2
  | EStream controller name args => (stream controller name args s).2
  | EObservableSubscribe c observer => (observable_subscribe c observer s).2
  | EObservableUnsubscribe c subscriberId => observable_unsubscribe c subscriberId s
  | EReleaseEntity h => releaseEntity h s
  | EReleaseCollection h => releaseCollection h s
  | ESocketError sock reason => socket_onerror sock reason s
  | ESocketOpen sock => socket_onopen sock s
  | ESocketMessage sock message => socket_onmessage sock message s
  end.

(** A turn: the handler runs, then the job queue is drained. *)
Definition turn (fuel : nat) (e : event) (s : state) : state :=
  drain fuel (handle e s).

Definition run (fuel : nat) (es : list event) (s : state) : state :=
  foldl (λ s e, turn fuel e s) s es.

Definition terminal (f : ServerMessage) : Prop :=
  sm_body f = SmComplete ∨ ∃ e, sm_body f = SmError e.

(** The subscribers of the unit test: [{error: () => {}}]. *)
Definition is_probe (o : observer) : Prop :=
  match o with ObsProbe _ => True | _ => False end.

(** [n] calls of [connect()] made one after the other, before any job
    runs. *)
Fixpoint connects (n : nat) (s : state) : list nat * state :=
  match n with
  | 0 => ([], s)
  | S n' =>
      let '(out, s) := connect s in
      let '(outs, s) := connects n' s in
      (out :: outs, s)
  end.

(** The state a first caller of [connect()] leaves: one try counted, one
    socket created, and the caller registered on the attempt. *)
Definition attempt_started (s : state) : state :=
  let out := length (promises s) in
  set_socket (Some (length (sockets s)))
    (set_sockets (sockets s ++ [{| ws_promise := S out; ws_sent := []; ws_closed := false |}])
       (set_promises (promises s ++ [Pending []; Pending [KConnectTry out]])
          (set_connectionPromise (Some (S out))
             (set_connectionTries (js_incr (connectionTries s)) s)))).

Definition fresh_subject (id : Z) (os : list observer) : MessageSubject :=
  {| teardown := TdDeleteReply id; isStopped := false; thrownError := None; observers := os |}.

(** The state [this.sendMessage(m).firstAndClose()] leaves on a connected
    client: the identifier is allocated, the subject is routed and
    subscribed, and the frame waits in the job queue. *)
Definition one_shot_started (m : ClientMessageWithoutId) (s : state) : state :=
  let id := js_incr (messageId s) in
  let sid := length (subjects s) in
  set_subjects (subjects s ++ [fresh_subject id [ObsFirst (S (length (promises s)))]])
    (set_promises (promises s ++ [Settled (Fulfilled VUndefined); Pending []])
       (set_microtasks (microtasks s ++ [(KSend (CmRequest id m) sid, Fulfilled VUndefined)])
          (set_replies (<[id := sid]> (replies s))
             (set_messageId id s)))).

(** Frames of the reply family; the entity notifications and the
    ['channel'] frames are not routed by identifier. *)
Definition is_reply (f : ServerMessage) : bool :=
  match sm_body f with
  | SmEntity _ _ | SmChannel => false
  | _ => true
  end.

(** One-shot calls issued one after the other, before any job runs:
    the promises the callers hold. *)
Fixpoint one_shot_calls (msgs : list ClientMessageWithoutId) (s : state) : list nat * state :=
  match msgs with
  | [] => ([], s)
  | m :: msgs' =>
      let '(_, p, s) := sendMessage_firstAndClose m s in
      let '(ps, s) := one_shot_calls msgs' s in
      (p :: ps, s)
  end.

(** Inbound frames, each handled in a turn of its own. *)
Definition receive (fuel : nat) (frames : list ServerMessage) (s : state) : state :=
  foldl (λ s f, drain fuel (onMessage (Some f) s)) s frames.

(** An exchange that still waits for its reply. *)
Definition open_exchange (s : state) (id : Z) (sid p : nat) : Prop :=
  replies s !! id = Some sid ∧
  subjects s !! sid = Some (fresh_subject id [ObsFirst p]) ∧
  promises s !! p = Some (Pending []).

(** The frame is a reply that bears the identifier [id]. *)
Definition selects (id : Z) (f : ServerMessage) : bool :=
  is_reply f && (sm_id f =? id)%Z.

(** What holds between two inbound frames, for the [n] exchanges whose
    identifiers follow [m0], whose subjects follow [S0] and whose
    promises follow [P0]: every exchange is either still open, or
    resolved with the first frame that bore its identifier; the routing
    table holds these exchanges only. *)
Definition routed (m0 : Z) (S0 P0 n : nat) (s : state) (seen : list ServerMessage) : Prop :=
  microtasks s = [] ∧
  (∀ i, i < n →
     match find (selects (m0 + 1 + Z.of_nat i)) seen with
     | None => open_exchange s (m0 + 1 + Z.of_nat i) (S0 + i) (P0 + 2 * i + 1)
     | Some f => replies s !! (m0 + 1 + Z.of_nat i)%Z = None ∧
                 promises s !! (P0 + 2 * i + 1) = Some (Settled (Fulfilled (VMessage f)))
     end) ∧
  (∀ id' sid', replies s !! id' = Some sid' → ∃ i, i < n ∧ id' = (m0 + 1 + Z.of_nat i)%Z).

(** ** getActionTypes *)

Definition cached (controller actionName : string) (s : state) : option ActionTypes :=
  cachedActionsTypes s !! controller ≫= (.!! actionName).



Definition id_le (s s' : state) : Prop := (messageId s ≤ messageId s')%Z.

(** * Chunked transfer *)

Module Chunks.

(** Modelled from the spec: the chunked transfer codec ([ClientProgress]
    and the chunk reader of [packages/rpc/src]) is not among the sources;
    only its test is.  Section 4.6: a payload "exceeding a configured
    chunk size" is split "into sequential chunks"; a progress update is
    emitted "per chunk received" with "progress.current += chunk length";
    "the final chunk may be smaller or include trailing metadata overhead,
    so done is computed by comparing assembled length to the previously
    announced total"; "progress = current/total is clamped to at most 1". *)
Record Progress := { total : Z; current : Z }.

(** Modelled from the spec: the lengths of the sequential chunks of a
    message of [length] bytes, the last one possibly smaller. *)
Definition chunk_lengths (chunkSize length : Z) : list Z :=
  replicate (Z.to_nat (length / chunkSize)) chunkSize ++
  (if (length mod chunkSize =? 0)%Z then [] else [(length mod chunkSize)%Z]).

(** Modelled from the spec: one chunk received. *)
Definition received (p : Progress) (chunk : Z) : Progress :=
  {| total := total p; current := (current p + chunk)%Z |}.

(** Modelled from the spec: the progress samples of a transfer, one per
    chunk. *)
Fixpoint samples (p : Progress) (chunks : list Z) : list Progress :=
  match chunks with
  | [] => []
  | c :: chunks' => received p c :: samples (received p c) chunks'
  end.

(** Modelled from the spec: [done], by comparing with the announced
    total. *)
Definition done (p : Progress) : bool := (total p <=? current p)%Z.

(** Modelled from the spec: [progress], [current/total] clamped to at
    most 1 (as an exact fraction). *)
Definition progress (p : Progress) : Q :=
  Qmin 1 (current p # Z.to_pos (total p)).

(** Modelled from the spec: a download whose message is the payload
    and [overhead] bytes of envelope. *)
Definition download (chunkSize payload overhead : Z) : list Progress :=
  samples {| total := payload + overhead; current := 0 |}
          (chunk_lengths chunkSize (payload + overhead)).

End Chunks.

(** * Scenarios *)

(** A client with no token, connected: [connect()], then the socket
    opens. *)
Definition connected_client : state :=
  run 10 [EConnect; ESocketOpen 0] (init None ∅).

Definition actionTypes_request : ClientMessageWithoutId := MsgActionTypes "user" "get".

Definition listing_request : ClientMessageWithoutId := MsgActionTypes "user" "list".

Definition no_such_action : ServerMessage := {| sm_id := 2; sm_body := SmError "no such action" |}.

Definition string_type : ServerMessageActionType :=
  {| at_type := "String"; at_entityName := None; at_partial := false |}.

Definition get_types : ServerMessage :=
  {| sm_id := 1;
     sm_body := SmActionTypesResult {| parameters := []; returnType := string_type |} |}.


Definition user_type : ServerMessageActionType :=
  {| at_type := "Entity"; at_entityName := Some "user"; at_partial := false |}.

Definition user_types : ServerMessage :=
  {| sm_id := 1; sm_body := SmActionTypesResult {| parameters := []; returnType := user_type |} |}.


(** A call of [stream] whose types have arrived and whose action frame
    is sent, on a client that knows the entities [registered]. *)
Definition awaiting_user (registered : gset string) : state :=
  run 10 [EConnect; ESocketOpen 0; EStream "user" "get" []; ESocketMessage 0 (Some user_types)]
    (init None registered).

(** An exchange whose frame has been sent. *)
Definition one_exchange : state :=
  run 10 [ESendMessage actionTypes_request] connected_client.

(** * The life of a fetch of type metadata *)



(** The return type is neither a date nor an entity: values pass
    through [deserializeResult] as they are. *)
Definition plain_result (call : StreamCall) : Prop :=
  ∃ t, sc_types call = Some t ∧
       String.eqb (at_type (returnType t)) "Date" = false ∧
       String.eqb (at_type (returnType t)) "Entity" = false.

(** * More scenarios *)

(** A one-shot exchange whose frame has been sent. *)
Definition one_shot_exchange : state :=
  drain 10 (sendMessage_firstAndClose actionTypes_request connected_client).2.

Definition open_socket : WebSocket := {| ws_promise := 1; ws_sent := []; ws_closed := false |}.

(** A connected client that has the types of [user.get] cached. *)
Definition typed_client : state :=
  run 10 [EGetActionTypes "user" "get"; ESocketMessage 0 (Some get_types)] connected_client.

(** A call of [stream] whose action frame is sent and whose return
    type is a string. *)
Definition awaiting_value : state :=
  run 10 [EConnect; ESocketOpen 0; EStream "user" "get" []; ESocketMessage 0 (Some get_types)]
    (init None ∅).

Definition get_call (rv : option ReturnValue) : StreamCall :=
  {| sc_controller := "user"; sc_name := "get"; sc_args := []; sc_promise := 3;
     sc_types := Some {| parameters := []; returnType := string_type |};
     sc_returnValue := rv; sc_subscribers := ∅; sc_subscriberIdCounter := 0;
     sc_streamBehaviorSubject := None |}.


(** A client whose first connection attempt is in flight. *)
Definition connecting_client : state := (connect (init None ∅)).2.

Definition user_call : StreamCall :=
  {| sc_controller := "user"; sc_name := "get"; sc_args := []; sc_promise := 3;
     sc_types := Some {| parameters := []; returnType := user_type |};
     sc_returnValue := None; sc_subscribers := ∅; sc_subscriberIdCounter := 0;
     sc_streamBehaviorSubject := None |}.

(** * Reasoning about states *)

(** Two states with the same fields are the same state. *)
Lemma state_ext (s1 s2 : state) :
  token s1 = token s2 →
  socket s1 = socket s2 →
  connected s1 = connected s2 →
  loggedIn s1 = loggedIn s2 →
  messageId s1 = messageId s2 →
  connectionTries s1 = connectionTries s2 →
  replies s1 = replies s2 →
  connectionPromise s1 = connectionPromise s2 →
  entityState s1 = entityState s2 →
  cachedActionsTypes s1 = cachedActionsTypes s2 →
  RegisteredEntities s1 = RegisteredEntities s2 →
  sockets s1 = sockets s2 →
  promises s1 = promises s2 →
  subjects s1 = subjects s2 →
  calls s1 = calls s2 →
  entities s1 = entities s2 →
  collections s1 = collections s2 →
  behaviorSubjects s1 = behaviorSubjects s2 →
  probes s1 = probes s2 →
  microtasks s1 = microtasks s2 →
  log s1 = log s2 →
  teardownCalls s1 = teardownCalls s2 →
  s1 = s2.
Proof. destruct s1, s2; simpl; intros; by subst. Qed.

(** Reduces the fields of updated states, and nothing else. *)
Ltac fields :=
  cbn [fst snd token socket connected loggedIn messageId connectionTries replies connectionPromise entityState cachedActionsTypes RegisteredEntities sockets promises subjects calls entities collections behaviorSubjects probes microtasks log teardownCalls
       set_socket set_connected set_loggedIn set_messageId set_connectionTries set_replies set_connectionPromise set_entityState set_cachedActionsTypes set_sockets set_promises set_subjects set_calls set_entities set_collections set_behaviorSubjects set_probes set_microtasks set_log set_teardownCalls] in *.

Ltac state_eq := apply state_ext; fields; try reflexivity.

(** * Frame lemmas: what the primitives leave alone *)

Ltac unfold_prims :=
  unfold resolve, reject, settle, on_settled, tearDown, add_log, set_subject, set_call,
    new_promise, new_subject, new_probe in *.

Ltac prim := intros; unfold_prims; repeat case_match; simpl in *; try done.

Lemma settle_subjects p o s : subjects (settle p o s) = subjects s.
Proof. prim. Qed.
Lemma settle_replies p o s : replies (settle p o s) = replies s.
Proof. prim. Qed.
Lemma settle_sockets p o s : sockets (settle p o s) = sockets s.
Proof. prim. Qed.
Lemma settle_socket p o s : socket (settle p o s) = socket s.
Proof. prim. Qed.
Lemma settle_teardownCalls p o s : teardownCalls (settle p o s) = teardownCalls s.
Proof. prim. Qed.
Lemma settle_messageId p o s : messageId (settle p o s) = messageId s.
Proof. prim. Qed.
Lemma settle_log p o s : log (settle p o s) = log s.
Proof. prim. Qed.
Lemma settle_probes p o s : probes (settle p o s) = probes s.
Proof. prim. Qed.

Lemma tearDown_subjects t s : subjects (tearDown t s) = subjects s.
Proof. prim. Qed.
Lemma tearDown_sockets t s : sockets (tearDown t s) = sockets s.
Proof. prim. Qed.
Lemma tearDown_socket t s : socket (tearDown t s) = socket s.
Proof. prim. Qed.
Lemma tearDown_promises t s : promises (tearDown t s) = promises s.
Proof. prim. Qed.
Lemma tearDown_microtasks t s : microtasks (tearDown t s) = microtasks s.
Proof. prim. Qed.
Lemma tearDown_messageId t s : messageId (tearDown t s) = messageId s.
Proof. prim. Qed.
Lemma tearDown_log t s : log (tearDown t s) = log s.
Proof. prim. Qed.
Lemma tearDown_probes t s : probes (tearDown t s) = probes s.
Proof. prim. Qed.

Lemma tearDown_replies_gone id s : replies (tearDown (TdDeleteReply id) s) !! id = None.
Proof. simpl. apply lookup_delete_eq. Qed.

(** A teardown whose routing entry is already gone only counts the call. *)
Lemma tearDown_absent id s :
  replies s !! id = None →
  tearDown (TdDeleteReply id) s = set_teardownCalls (teardownCalls s ++ [TdDeleteReply id]) s.
Proof.
  intros H. unfold tearDown. destruct s; simpl in *. by rewrite delete_id.
Qed.

Lemma set_subject_id s sid sj : subjects s !! sid = Some sj → set_subject sid sj s = s.
Proof. intros H. destruct s; simpl in *. unfold set_subject; simpl. by rewrite list_insert_id. Qed.

Lemma settle_keeps_settled p q o o' s :
  promises s !! p = Some (Settled o) → promises (settle q o' s) !! p = Some (Settled o).
Proof.
  intros H. unfold settle. destruct (promises s !! q) as [[ks|]|] eqn:E; simpl; try done.
  destruct (decide (p = q)) as [->|Hne]; [congruence|].
  by rewrite list_lookup_insert_ne.
Qed.

Lemma tearDown_keeps_replies_gone t id s :
  replies s !! id = None → replies (tearDown t s) !! id = None.
Proof.
  intros H. destruct t as [id'|]; simpl; [|done].
  destruct (decide (id' = id)) as [->|]; [apply lookup_delete_eq|by rewrite lookup_delete_ne].
Qed.

Section complete_observers.
Context (t : TeardownLogic).

Lemma complete_observers_subjects os s :
  subjects (complete_observers t os s) = subjects s.
Proof.
  revert s. induction os as [|[p|c|k] os IH]; intros s; simpl; [done|..]; rewrite IH; [|done..]; unfold reject.
  by rewrite tearDown_subjects, settle_subjects.
Qed.

Lemma complete_observers_sockets os s :
  sockets (complete_observers t os s) = sockets s.
Proof.
  revert s. induction os as [|[p|c|k] os IH]; intros s; simpl; [done|..]; rewrite IH; [|done..]; unfold reject.
  by rewrite tearDown_sockets, settle_sockets.
Qed.

Lemma complete_observers_replies_gone id os s :
  replies s !! id = None → replies (complete_observers t os s) !! id = None.
Proof.
  revert s. induction os as [|[p|c|k] os IH]; intros s H; simpl; [done|..]; apply IH; [|done..]; unfold reject.
  apply tearDown_keeps_replies_gone. by rewrite settle_replies.
Qed.

Lemma complete_observers_keeps_settled p o os s :
  promises s !! p = Some (Settled o) →
  promises (complete_observers t os s) !! p = Some (Settled o).
Proof.
  revert s. induction os as [|[q|c|k] os IH]; intros s H; simpl; [done|..]; apply IH; [|done..]; unfold reject.
  rewrite tearDown_promises. by apply settle_keeps_settled.
Qed.
End complete_observers.

Definition stopped (sj : MessageSubject) : MessageSubject :=
  {| teardown := teardown sj; isStopped := true; thrownError := thrownError sj; observers := [] |}.

Lemma complete_subject sid sj s :
  subjects s !! sid = Some sj → subjects (complete sid s) !! sid = Some (stopped sj).
Proof.
  intros H. unfold complete. rewrite H, complete_observers_subjects. simpl.
  apply list_lookup_insert_eq. by eapply lookup_lt_Some.
Qed.

Lemma close_subject sid sj s :
  subjects s !! sid = Some sj → subjects (close sid s) !! sid = Some (stopped sj).
Proof.
  intros H. unfold close. rewrite H. apply complete_subject. by rewrite tearDown_subjects.
Qed.

Lemma close_sockets sid s : sockets (close sid s) = sockets s.
Proof.
  unfold close, complete. destruct (subjects s !! sid) as [sj|] eqn:E; [|done].
  rewrite tearDown_subjects, E, complete_observers_sockets. simpl. apply tearDown_sockets.
Qed.

Lemma close_replies_gone sid sj id s :
  subjects s !! sid = Some sj → teardown sj = TdDeleteReply id →
  replies (close sid s) !! id = None.
Proof.
  intros H Ht. unfold close, complete. rewrite H, tearDown_subjects, H.
  apply complete_observers_replies_gone. simpl. rewrite Ht. apply tearDown_replies_gone.
Qed.

Lemma close_stopped sid sj s :
  subjects s !! sid = Some sj → isStopped sj = true → observers sj = [] →
  close sid s = tearDown (teardown sj) s.
Proof.
  intros H Hs Ho. unfold close, complete. rewrite H, tearDown_subjects, H, Ho. simpl.
  apply set_subject_id. rewrite tearDown_subjects, H. f_equal. destruct sj; simpl in *; congruence.
Qed.

(** C6 (as amended).  [close()] on the subject of an exchange sends no
    frame; it removes the routing entry of the exchange and completes the
    subject.  A second [close()] invokes the teardown closure once more,
    and leaves every other part of the client as the first one left it.
    A terminal frame ([complete] or [error]) that arrives after the close
    finds no routing entry: it is logged and dropped, without invoking
    the teardown, sending or throwing. *)
Theorem close_twice_and_late_terminal_frame (s : state) (sid : nat) (sj : MessageSubject)
    (id : Z) (f : ServerMessage) :
  subjects s !! sid = Some sj → teardown sj = TdDeleteReply id →
  sm_id f = id → terminal f →
  let s1 := close sid s in
  sockets s1 = sockets s ∧
  replies s1 !! id = None ∧
  subjects s1 !! sid = Some (stopped sj) ∧
  close sid s1 = set_teardownCalls (teardownCalls s1 ++ [TdDeleteReply id]) s1 ∧
  onMessage (Some f) s1 = add_log (ConsoleError f) s1.
Proof.
  intros H Ht Hid Hf s1.
  assert (Hgone : replies s1 !! id = None) by by eapply close_replies_gone.
  assert (Hsj : subjects s1 !! sid = Some (stopped sj)) by by apply close_subject.
  split_and!; [apply close_sockets|done|done|..].
  - rewrite (close_stopped _ _ _ Hsj) by done. simpl. rewrite Ht. by apply tearDown_absent.
  - unfold onMessage. rewrite Hid, Hgone. by destruct Hf as [->|[e ->]].
Qed.

Lemma next_observers_stopped sid v os s :
  subject_stopped sid s = true → next_observers sid v os s = s.
Proof. intros H. destruct os; simpl; [done|by rewrite H]. Qed.

Lemma next_observers_probes sid v os rest s :
  Forall is_probe os →
  next_observers sid v (os ++ rest) s = next_observers sid v rest s.
Proof.
  induction 1 as [|o os Ho _ IH]; simpl; [done|].
  destruct (subject_stopped sid s) eqn:E; [by rewrite next_observers_stopped|].
  destruct o; simpl in *; done.
Qed.

Lemma filter_probes p os :
  Forall is_probe os → filter (λ o', o' ≠ ObsFirst p) (os ++ [ObsFirst p]) = os.
Proof.
  induction 1 as [|o os Ho _ IH]; simpl.
  - rewrite filter_cons_False; [done|]. intros Hne. by apply Hne.
  - rewrite filter_cons_True; [by rewrite IH|]. by destruct o.
Qed.

(** C7 (as amended).  On a live subject whose earlier subscribers, if
    any, are plain probes, [firstAndClose()] resolves with the first
    value delivered to the subject, whatever its kind (an error-kind frame
    is a value like any other), and then tears down: the routing entry of
    the exchange is removed and the subject is completed. *)
Theorem firstAndClose_resolves_with_first_reply (s : state) (sid : nat)
    (sj : MessageSubject) (v : value) :
  subjects s !! sid = Some sj → isStopped sj = false → thrownError sj = None →
  Forall is_probe (observers sj) →
  let '(p, s1) := firstAndClose sid s in
  let s2 := next sid v s1 in
  promises s1 !! p = Some (Pending []) ∧
  promises s2 !! p = Some (Settled (Fulfilled v)) ∧
  subjects s2 !! sid = Some (stopped sj) ∧
  (∀ id, teardown sj = TdDeleteReply id → replies s2 !! id = None).
Proof.
  intros H Hs He Hos.
  assert (Hlt : sid < length (subjects s)) by by eapply lookup_lt_Some.
  unfold firstAndClose, new_promise, subscribe. simpl. rewrite H, He, Hs.
  set (p := length (promises s)).
  set (sj1 := {| teardown := teardown sj; isStopped := false; thrownError := None;
                 observers := observers sj ++ [ObsFirst p] |}).
  set (s1 := set_subject sid sj1 _).
  assert (Hp1 : promises s1 !! p = Some (Pending [])).
  { subst s1 p. simpl. by rewrite lookup_app_r, Nat.sub_diag. }
  assert (Hsj1 : subjects s1 !! sid = Some sj1).
  { subst s1. simpl. by apply list_lookup_insert_eq. }
  split; [done|].
  unfold next. rewrite Hsj1. simpl. rewrite next_observers_probes by done. simpl.
  unfold subject_stopped. rewrite Hsj1. simpl.
  set (s1r := resolve p v s1).
  assert (Hpr : promises s1r !! p = Some (Settled (Fulfilled v))).
  { subst s1r. unfold resolve, settle. rewrite Hp1. simpl.
    apply list_lookup_insert_eq. by eapply lookup_lt_Some. }
  assert (Hsjr : subjects s1r !! sid = Some sj1).
  { subst s1r. unfold resolve. by rewrite settle_subjects. }
  set (s1u := unsubscribe sid (ObsFirst p) s1r).
  set (sj2 := {| teardown := teardown sj; isStopped := false; thrownError := None;
                 observers := observers sj |}).
  assert (Hsju : subjects s1u !! sid = Some sj2).
  { subst s1u. unfold unsubscribe. rewrite Hsjr. simpl. rewrite filter_probes by done.
    apply list_lookup_insert_eq. by eapply lookup_lt_Some. }
  assert (Hpu : promises s1u !! p = Some (Settled (Fulfilled v))).
  { subst s1u. unfold unsubscribe. rewrite Hsjr. simpl. done. }
  split_and!.
  - unfold close, complete. rewrite Hsju, tearDown_subjects, Hsju.
    apply complete_observers_keeps_settled. simpl. by rewrite tearDown_promises.
  - rewrite (close_subject _ _ _ Hsju). f_equal. unfold stopped. simpl. by rewrite He.
  - intros id Ht. by eapply close_replies_gone.
Qed.

(** A caller that finds an attempt in flight registers on its promise. *)
Lemma connect_join cp ks s :
  connectionPromise s = Some cp → promises s !! cp = Some (Pending ks) →
  connect s =
    (length (promises s),
     set_promises (<[cp := Pending (ks ++ [KConnectWhile (length (promises s))])]>
                     (promises s ++ [Pending []])) s).
Proof.
  intros Hcp Hp. unfold connect, new_promise, connect_loop, on_settled. fields.
  rewrite Hcp. rewrite lookup_app_l by by eapply lookup_lt_Some. rewrite Hp.
  f_equal.
Qed.

Lemma connects_join n : ∀ cp ks s,
  connectionPromise s = Some cp → promises s !! cp = Some (Pending ks) →
  connects n s =
    (seq (length (promises s)) n,
     set_promises (<[cp := Pending (ks ++ map KConnectWhile (seq (length (promises s)) n))]>
                     (promises s ++ replicate n (Pending []))) s).
Proof.
  induction n as [|n IH]; intros cp ks s Hcp Hp; cbn [connects].
  - cbn [seq map replicate]. rewrite !app_nil_r, list_insert_id by done.
    f_equal. by state_eq.
  - rewrite (connect_join cp ks) by done.
    assert (Hlt : cp < length (promises s)) by by eapply lookup_lt_Some.
    erewrite (IH cp); [|done|]; last first.
    { fields. apply list_lookup_insert_eq. rewrite length_app. lia. }
    fields. rewrite length_insert, length_app. cbn [length].
    replace (length (promises s) + 1) with (S (length (promises s))) by lia.
    cbn [seq map replicate]. f_equal. state_eq.
    rewrite insert_app_l by (rewrite length_insert, length_app; cbn [length]; lia).
    rewrite list_insert_insert_eq. rewrite <- (assoc_L (++)). cbn [app].
    rewrite <- insert_app_l by (rewrite length_app; cbn [length]; lia).
    rewrite <- (assoc_L (++)). done.
Qed.

Lemma reject_pending out e s :
  promises s !! out = Some (Pending []) →
  reject out e s = set_promises (<[out := Settled (Rejected e)]> (promises s)) s.
Proof.
  intros H. unfold reject, settle. rewrite H. state_eq. cbn [map]. by rewrite app_nil_r.
Qed.

Lemma drain_cons k o rest s n :
  microtasks s = (k, o) :: rest →
  drain (S n) s = drain n (run_cont k o (set_microtasks rest s)).
Proof. intros H. cbn [drain]. by rewrite H. Qed.

Lemma drain_nil s n : microtasks s = [] → drain n s = s.
Proof. intros H. destruct n; cbn [drain]; [done|by rewrite H]. Qed.

(** Jobs of callers parked in the [while] loop of [connect], run with a
    rejection: every caller rejects, and nothing else happens. *)
Lemma drain_rejected_waiters e : ∀ outs s,
  microtasks s = map (λ out, (KConnectWhile out, Rejected e)) outs →
  NoDup outs →
  (∀ out, out ∈ outs → promises s !! out = Some (Pending [])) →
  let s' := drain (length outs) s in
  microtasks s' = [] ∧ sockets s' = sockets s ∧
  (∀ out, out ∈ outs → promises s' !! out = Some (Settled (Rejected e))) ∧
  (∀ p o, promises s !! p = Some (Settled o) → promises s' !! p = Some (Settled o)).
Proof.
  induction outs as [|out outs IH]; intros s Hq Hnd Hp; cbn [length].
  - rewrite drain_nil by done. split_and!; try done. intros out H. by apply elem_of_nil in H.
  - cbn [map] in Hq. rewrite (drain_cons _ _ _ _ _ Hq). cbn [run_cont].
    apply NoDup_cons in Hnd as [Hnotin Hnd].
    rewrite reject_pending by (fields; apply Hp; by left).
    set (s1 := set_promises _ _).
    assert (Hlt : out < length (promises s)).
    { eapply lookup_lt_Some. apply Hp. by left. }
    destruct (IH s1) as (Hq' & Hs' & Hrej & Hkeep).
    + done.
    + done.
    + intros o Ho. subst s1. fields.
      rewrite list_lookup_insert_ne by (intros ->; done). apply Hp. by right.
    + split_and!.
      * done.
      * by rewrite Hs'.
      * intros o [->|Ho]%elem_of_cons; [|by apply Hrej].
        apply Hkeep. subst s1. fields. by apply list_lookup_insert_eq.
      * intros p o Hpo. apply Hkeep. subst s1. fields.
        rewrite list_lookup_insert_ne; [done|]. intros ->.
        specialize (Hp p (ltac:(by left))). congruence.
Qed.

Lemma connect_first s :
  connectionPromise s = None → connected s = false →
  connect s = (length (promises s), attempt_started s).
Proof.
  intros Hcp Hc. unfold connect, new_promise, connect_loop. fields. rewrite Hcp, Hc.
  unfold doConnect, new_promise, on_settled. fields.
  rewrite lookup_app_r by done. rewrite Nat.sub_diag. cbn [lookup list_lookup].
  rewrite length_app. cbn [length]. rewrite Nat.add_1_r.
  unfold attempt_started. f_equal. state_eq.
  rewrite insert_app_r_alt by (rewrite length_app; cbn [length]; lia).
  rewrite length_app. cbn [length].
  replace (S (length (promises s)) - (length (promises s) + 1)) with 0 by lia.
  cbn [app]. by rewrite <- (assoc_L (++)).
Qed.

(** C8.  Callers of [connect()] that overlap one attempt all wait for
    that attempt: a single try is counted and a single socket created,
    the promise of the attempt carries every caller, and no caller
    settles before the attempt does.  When the attempt fails, every
    caller rejects if it was the very first try ([connectionTries] is 1),
    and no caller rejects if it was a later try. *)
Theorem concurrent_connect_single_attempt (s : state) (n : nat) (reason : string) :
  connectionPromise s = None → connected s = false → microtasks s = [] →
  let '(outs, s1) := connects (S n) s in
  let out0 := length (promises s) in
  let sock := length (sockets s) in
  outs = out0 :: seq (S (S out0)) n ∧
  length (sockets s1) = S (length (sockets s)) ∧
  connectionTries s1 = js_incr (connectionTries s) ∧
  connectionPromise s1 = Some (S out0) ∧
  promises s1 !! S out0 = Some (Pending (KConnectTry out0 :: map KConnectWhile (seq (S (S out0)) n))) ∧
  microtasks s1 = [] ∧
  (∀ out, out ∈ outs → promises s1 !! out = Some (Pending [])) ∧
  let s2 := drain (S n) (socket_onerror sock reason s1) in
  microtasks s2 = [] ∧
  length (sockets s2) = S (length (sockets s)) ∧
  ∀ out, out ∈ outs →
    promises s2 !! out = Some (if (connectionTries s1 =? 1)%Z
                               then Settled (Rejected (ErrCouldNotConnect reason))
                               else Pending []).
Proof.
  intros Hcp Hc Hq. cbn [connects]. rewrite connect_first by done.
  set (P := promises s). set (s0 := attempt_started s).
  assert (Hp0 : promises s0 = P ++ [Pending []; Pending [KConnectTry (length P)]]) by done.
  assert (Hlen0 : length (promises s0) = S (S (length P))).
  { rewrite Hp0, length_app. cbn [length]. lia. }
  assert (Hcp0 : promises s0 !! S (length P) = Some (Pending [KConnectTry (length P)])).
  { rewrite Hp0. rewrite lookup_app_r by lia. by replace (S (length P) - length P) with 1 by lia. }
  rewrite (connects_join n (S (length P)) [KConnectTry (length P)]); [|done|done].
  rewrite Hlen0. cbv beta iota.
  set (ks := KConnectTry (length P) :: map KConnectWhile (seq (S (S (length P))) n)).
  set (s1 := set_promises _ s0).
  assert (Hp1 : promises s1 = <[S (length P) := Pending ks]> (promises s0 ++ replicate n (Pending []))).
  { done. }
  assert (Hcp1 : promises s1 !! S (length P) = Some (Pending ks)).
  { rewrite Hp1. apply list_lookup_insert_eq. rewrite length_app. lia. }
  assert (Hpend : ∀ out, out ∈ length P :: seq (S (S (length P))) n →
                         promises s1 !! out = Some (Pending [])).
  { intros out Ho. rewrite Hp1.
    apply elem_of_cons in Ho as [->|Ho].
    - rewrite list_lookup_insert_ne by lia. rewrite lookup_app_l by lia.
      rewrite Hp0. rewrite lookup_app_r by lia. by rewrite Nat.sub_diag.
    - apply elem_of_seq in Ho. rewrite list_lookup_insert_ne by lia.
      rewrite lookup_app_r by lia. apply lookup_replicate_2. lia. }
  assert (Hsk1 : sockets s1 = sockets s ++ [{| ws_promise := S (length P); ws_sent := []; ws_closed := false |}]).
  { done. }
  assert (Htr1 : connectionTries s1 = js_incr (connectionTries s)) by done.
  assert (Hq1 : microtasks s1 = []) by done.
  split; [done|].
  split; [rewrite Hsk1, length_app; cbn [length]; lia|].
  split; [done|].
  split; [done|].
  split; [done|].
  split; [done|].
  split; [done|].
  assert (Herr : socket_onerror (length (sockets s)) reason s1 =
                 if (connectionTries s1 =? 1)%Z
                 then reject (S (length P)) (ErrCouldNotConnect reason) (set_connected false s1)
                 else set_connected false s1).
  { unfold socket_onerror. rewrite Hsk1. rewrite lookup_app_r by done. rewrite Nat.sub_diag. done. }
  rewrite Herr. clear Herr.
  destruct (connectionTries s1 =? 1)%Z eqn:Etries.
  - (* the very first try: the attempt rejects, and so does every caller *)
    set (e := ErrCouldNotConnect reason).
    set (s2 := reject (S (length P)) e (set_connected false s1)).
    assert (Hs2 : s2 = set_microtasks (map (λ k, (k, Rejected e)) ks)
                         (set_promises (<[S (length P) := Settled (Rejected e)]> (promises s1))
                            (set_connected false s1))).
    { subst s2. unfold reject, settle.
      change (promises (set_connected false s1)) with (promises s1).
      rewrite Hcp1. state_eq. by rewrite Hq1. }
    assert (Hq2 : microtasks s2 = (KConnectTry (length P), Rejected e) ::
                      map (λ out, (KConnectWhile out, Rejected e)) (seq (S (S (length P))) n)).
    { rewrite Hs2. subst ks. fields. cbn [map]. by rewrite map_map. }
    assert (Hp2 : promises s2 = <[S (length P) := Settled (Rejected e)]> (promises s1)).
    { by rewrite Hs2. }
    assert (Hsk2 : sockets s2 = sockets s1) by by rewrite Hs2.
    rewrite (drain_cons _ _ _ _ _ Hq2). cbn [run_cont].
    set (s2' := set_connectionPromise None _).
    assert (Hp2' : promises s2' = promises s2) by done.
    rewrite reject_pending; last first.
    { rewrite Hp2', Hp2. rewrite list_lookup_insert_ne by lia. apply Hpend. by left. }
    set (s3 := set_promises _ _).
    assert (Hp3 : promises s3 = <[length P := Settled (Rejected e)]> (promises s2)).
    { subst s3. fields. by rewrite Hp2'. }
    assert (Hlen1 : length (promises s1) = S (S (length P)) + n).
    { rewrite Hp1, length_insert, length_app, Hlen0, length_replicate. done. }
    destruct (drain_rejected_waiters e (seq (S (S (length P))) n) s3) as (Hq' & Hs' & Hrej & Hkeep).
    + done.
    + apply NoDup_seq.
    + intros out Ho. rewrite Hp3, Hp2. apply elem_of_seq in Ho.
      rewrite !list_lookup_insert_ne by lia. apply Hpend. right. by apply elem_of_seq.
    + rewrite length_seq in Hq', Hs', Hrej, Hkeep. split_and!; [done| |].
      * rewrite Hs'. change (sockets s3) with (sockets s2). rewrite Hsk2, Hsk1, length_app.
        cbn [length]. lia.
      * intros out [->|Ho]%elem_of_cons; [|by apply Hrej].
        apply Hkeep. rewrite Hp3. apply list_lookup_insert_eq.
        rewrite Hp2, length_insert, Hlen1. lia.
  - (* a later try: the failure is swallowed and every caller stays parked *)
    rewrite drain_nil by done. split_and!; [done| |].
    + change (sockets (set_connected false s1)) with (sockets s1).
      rewrite Hsk1, length_app. cbn [length]. lia.
    + intros out Ho. by apply Hpend.
Qed.

Lemma js_incr_below n : (n < MAX_SAFE)%Z → js_incr n = (n + 1)%Z.
Proof. intros H. unfold js_incr. by rewrite (proj2 (Z.ltb_lt _ _) H). Qed.

Lemma js_incr_le n : (n ≤ js_incr n)%Z.
Proof. unfold js_incr. case_match; lia. Qed.

(** ** [sendMessage] on a client that is connected *)

(** A caller of [connect()] on a connected client resolves at once. *)
Lemma connect_connected s :
  connectionPromise s = None → connected s = true →
  connect s = (length (promises s),
               set_promises (promises s ++ [Settled (Fulfilled VUndefined)]) s).
Proof.
  intros Hcp Hc. unfold connect, new_promise, connect_loop. fields. rewrite Hcp, Hc.
  unfold resolve, settle. fields. rewrite lookup_app_r by done. rewrite Nat.sub_diag.
  cbn [lookup list_lookup]. f_equal. state_eq.
  - rewrite insert_app_r_alt by done. by rewrite Nat.sub_diag.
  - cbn [map]. by rewrite app_nil_r.
Qed.

Lemma sendMessage_connected m s :
  connectionPromise s = None → connected s = true →
  sendMessage m s =
    (length (subjects s),
     set_subjects (subjects s ++ [fresh_subject (js_incr (messageId s)) []])
       (set_promises (promises s ++ [Settled (Fulfilled VUndefined)])
          (set_microtasks (microtasks s ++ [(KSend (CmRequest (js_incr (messageId s)) m)
                                               (length (subjects s)), Fulfilled VUndefined)])
             (set_replies (<[js_incr (messageId s) := length (subjects s)]> (replies s))
                (set_messageId (js_incr (messageId s)) s))))).
Proof.
  intros Hcp Hc. unfold sendMessage, new_subject. fields.
  rewrite connect_connected by done. fields.
  unfold on_settled. fields. rewrite lookup_app_r by done. rewrite Nat.sub_diag.
  cbn [lookup list_lookup]. f_equal.
Qed.

Lemma sendMessage_firstAndClose_connected m s :
  connectionPromise s = None → connected s = true →
  sendMessage_firstAndClose m s =
    (length (subjects s), S (length (promises s)), one_shot_started m s).
Proof.
  intros Hcp Hc. unfold sendMessage_firstAndClose. rewrite sendMessage_connected by done.
  unfold firstAndClose, new_promise, subscribe. fields.
  rewrite lookup_app_r by done. rewrite Nat.sub_diag. cbn [lookup list_lookup fresh_subject].
  cbn [thrownError isStopped teardown observers app].
  rewrite length_app. cbn [length]. rewrite Nat.add_1_r.
  f_equal. unfold one_shot_started, set_subject. state_eq.
  - by rewrite <- (assoc_L (++)).
  - rewrite insert_app_r_alt by done. by rewrite Nat.sub_diag.
Qed.


(** Draining frames that wait behind a resolved [connect()] touches
    neither the routing table nor the subjects nor the promises. *)
Lemma drain_sends_frame : ∀ (l : list (ClientMessageAll * nat)) s,
  microtasks s = map (λ '(msg, sid), (KSend msg sid, Fulfilled VUndefined)) l →
  let s' := drain (length l) s in
  microtasks s' = [] ∧ replies s' = replies s ∧ subjects s' = subjects s ∧
  promises s' = promises s.
Proof.
  induction l as [|[msg sid] l IH]; intros s Hq; cbn [length].
  - by rewrite drain_nil.
  - cbn [map] in Hq. rewrite (drain_cons _ _ _ _ _ Hq). cbn [run_cont].
    set (s1 := match send msg _ with inl _ => _ | inr _ => _ end).
    assert (microtasks s1 = map (λ '(msg, sid), (KSend msg sid, Fulfilled VUndefined)) l ∧
            replies s1 = replies s ∧ subjects s1 = subjects s ∧ promises s1 = promises s)
      as (Hq1 & Hr1 & Hs1 & Hp1).
    { subst s1. unfold send, add_log. fields. repeat case_match; simplify_eq; done. }
    destruct (IH s1 Hq1) as (? & ? & ? & ?). split_and!; congruence.
Qed.

(** The first value delivered to a subject whose only subscriber is the
    one of [firstAndClose]. *)
Lemma next_only_first sid id p v s :
  subjects s !! sid = Some (fresh_subject id [ObsFirst p]) →
  promises s !! p = Some (Pending []) →
  let s' := next sid v s in
  replies s' = delete id (replies s) ∧
  subjects s' = <[sid := stopped (fresh_subject id [])]> (subjects s) ∧
  promises s' = <[p := Settled (Fulfilled v)]> (promises s) ∧
  microtasks s' = microtasks s ∧ sockets s' = sockets s ∧ socket s' = socket s.
Proof.
  intros Hs Hp.
  assert (Hlt : sid < length (subjects s)) by by eapply lookup_lt_Some.
  unfold next. rewrite Hs. cbn [fresh_subject isStopped observers next_observers].
  unfold subject_stopped. rewrite Hs. cbn [isStopped observer_next].
  unfold resolve, settle. rewrite Hp. cbn [map]. rewrite app_nil_r.
  set (s1 := set_microtasks _ _).
  unfold unsubscribe. change (subjects s1) with (subjects s). rewrite Hs.
  cbn [fresh_subject isStopped teardown thrownError observers].
  rewrite filter_cons_False by (intros H; by apply H). rewrite filter_nil.
  set (s2 := set_subject _ _ _).
  assert (Hs2 : subjects s2 !! sid = Some (fresh_subject id [])).
  { subst s2. unfold set_subject. fields. by apply list_lookup_insert_eq. }
  unfold close. rewrite Hs2. cbn [fresh_subject teardown].
  unfold complete. rewrite tearDown_subjects, Hs2. cbn [observers complete_observers].
  cbn [teardown isStopped thrownError tearDown]. subst s2 s1. unfold set_subject. fields.
  split_and!; try done.
  by rewrite list_insert_insert_eq.
Qed.

Lemma find_snoc {A} (P : A → bool) l x :
  find P (l ++ [x]) = match find P l with
                      | Some y => Some y
                      | None => if P x then Some x else None
                      end.
Proof. induction l as [|y l IH]; simpl; [done|]. by destruct (P y). Qed.

Lemma onMessage_reply f s :
  is_reply f = true →
  onMessage (Some f) s = match replies s !! sm_id f with
                         | Some subject => next subject (VMessage f) s
                         | None => add_log (ConsoleError f) s
                         end.
Proof. unfold is_reply, onMessage. by destruct (sm_body f). Qed.

Lemma onMessage_not_reply f s :
  is_reply f = false →
  let s' := onMessage (Some f) s in
  replies s' = replies s ∧ subjects s' = subjects s ∧ promises s' = promises s ∧
  microtasks s' = microtasks s.
Proof. unfold is_reply, onMessage. by destruct (sm_body f). Qed.

Lemma one_shot_calls_spec : ∀ msgs s,
  connectionPromise s = None → connected s = true →
  (messageId s + Z.of_nat (length msgs) ≤ MAX_SAFE)%Z →
  let '(ps, s1) := one_shot_calls msgs s in
  let n := length msgs in
  ps = map (λ i, length (promises s) + 2 * i + 1) (seq 0 n) ∧
  (∀ i, i < n → open_exchange s1 (messageId s + 1 + Z.of_nat i) (length (subjects s) + i)
                   (length (promises s) + 2 * i + 1)) ∧
  (∀ id, (id ≤ messageId s ∨ messageId s + Z.of_nat n < id)%Z → replies s1 !! id = replies s !! id) ∧
  (∀ sid, sid < length (subjects s) → subjects s1 !! sid = subjects s !! sid) ∧
  (∀ p, p < length (promises s) → promises s1 !! p = promises s !! p) ∧
  (∃ l, length l = n ∧
        microtasks s1 = microtasks s ++
                        map (λ '(msg, sid), (KSend msg sid, Fulfilled VUndefined)) l).
Proof.
  induction msgs as [|m msgs IH]; intros s Hcp Hc Hb; cbn [one_shot_calls length].
  - split_and!; try done; [intros; lia|]. exists []. by rewrite app_nil_r.
  - rewrite sendMessage_firstAndClose_connected by done.
    cbn [length] in Hb.
    assert (Hid : js_incr (messageId s) = (messageId s + 1)%Z) by (apply js_incr_below; lia).
    set (s' := one_shot_started m s).
    assert (Hm' : messageId s' = (messageId s + 1)%Z) by (subst s'; fields; done).
    assert (HS' : subjects s' = subjects s ++
                    [fresh_subject (messageId s + 1) [ObsFirst (S (length (promises s)))]]).
    { subst s'. unfold one_shot_started. fields. by rewrite Hid. }
    assert (HP' : promises s' = promises s ++ [Settled (Fulfilled VUndefined); Pending []]) by done.
    assert (HR' : replies s' = <[(messageId s + 1)%Z := length (subjects s)]> (replies s)).
    { subst s'. unfold one_shot_started. fields. by rewrite Hid. }
    specialize (IH s'). destruct (one_shot_calls msgs s') as [ps s1].
    destruct IH as (Hps & Hopen & Hrep & Hsub & Hpro & l & Hl & Hq); [done|done|lia|].
    rewrite HS', HP', Hm' in *. rewrite !length_app in *. cbn [length] in *.
    split_and!.
    + cbn [seq map]. f_equal; [lia|]. rewrite Hps, <- seq_shift, map_map.
      apply map_ext. intros i. lia.
    + intros [|i] Hi.
      * unfold open_exchange. cbn [Z.of_nat]. rewrite Z.add_0_r, Nat.add_0_r.
        rewrite Hrep by lia. rewrite Hsub by lia. rewrite Hpro by lia.
        rewrite HR', lookup_insert_eq. rewrite !lookup_app_r by lia.
        replace (length (promises s) + 2 * 0 + 1 - length (promises s)) with 1 by lia.
        rewrite Nat.sub_diag.
        replace (length (promises s) + 2 * 0 + 1) with (S (length (promises s))) by lia. done.
      * specialize (Hopen i (ltac:(lia))).
        replace (messageId s + 1 + Z.of_nat (S i))%Z with (messageId s + 1 + 1 + Z.of_nat i)%Z by lia.
        replace (length (subjects s) + S i) with (length (subjects s) + 1 + i) by lia.
        replace (length (promises s) + 2 * S i + 1)
          with (length (promises s) + 2 + 2 * i + 1) by lia.
        done.
    + intros id Hidr. rewrite Hrep by lia. rewrite HR'. apply lookup_insert_ne. lia.
    + intros sid Hsid. rewrite Hsub by lia. by apply lookup_app_l.
    + intros p Hp. rewrite Hpro by lia. by apply lookup_app_l.
    + exists ((CmRequest (messageId s + 1) m, length (subjects s)) :: l). split; [simpl; lia|].
      rewrite Hq. subst s'. unfold one_shot_started. fields. rewrite Hid.
      by rewrite <- (assoc_L (++)).
Qed.

Lemma routed_step m0 S0 P0 n fuel f s seen :
  routed m0 S0 P0 n s seen →
  routed m0 S0 P0 n (drain fuel (onMessage (Some f) s)) (seen ++ [f]).
Proof.
  set (id := λ i : nat, (m0 + 1 + Z.of_nat i)%Z).
  set (sid := λ i : nat, S0 + i). set (p := λ i : nat, P0 + 2 * i + 1).
  intros (Hq & Hex0 & Hdom0).
  assert (Hex : ∀ i, i < n →
            match find (selects (id i)) seen with
            | None => open_exchange s (id i) (sid i) (p i)
            | Some f => replies s !! id i = None ∧
                        promises s !! p i = Some (Settled (Fulfilled (VMessage f)))
            end) by exact Hex0.
  assert (Hdom : ∀ id' sid', replies s !! id' = Some sid' → ∃ i, i < n ∧ id' = id i)
    by exact Hdom0.
  clear Hex0 Hdom0.
  destruct (is_reply f) eqn:Hrep; last first.
  { (* an entity notification or a channel frame *)
    destruct (onMessage_not_reply f s Hrep) as (Hr & Hs & Hp & Hq').
    rewrite drain_nil by congruence.
    split_and!; [congruence| |by setoid_rewrite Hr].
    intros i Hi. specialize (Hex i Hi). rewrite find_snoc. fold (id i) (p i) (sid i).
    unfold selects at 2. rewrite Hrep. cbn [andb].
    destruct (find _ seen); [by rewrite Hr, Hp|].
    unfold open_exchange. by rewrite Hr, Hs, Hp. }
  rewrite onMessage_reply by done.
  destruct (replies s !! sm_id f) as [sd|] eqn:Hlook.
  - (* the frame bears the identifier of an exchange *)
    destruct (Hdom _ _ Hlook) as (i & Hi & Hidi).
    pose proof (Hex i Hi) as Hopen.
    destruct (find (selects (id i)) seen) as [g|] eqn:Hfind.
    { destruct Hopen as [Hgone _]. rewrite <- Hidi in Hgone. congruence. }
    destruct Hopen as (Hri & Hsi & Hpi).
    assert (sd = sid i) as -> by (rewrite <- Hidi in Hri; congruence).
    destruct (next_only_first (sid i) (id i) (p i) (VMessage f) s Hsi Hpi)
      as (Hr & Hs & Hp & Hq' & _).
    rewrite drain_nil by congruence.
    split_and!; [congruence| |].
    + intros j Hj. specialize (Hex j Hj). rewrite find_snoc. fold (id j) (p j) (sid j).
      destruct (decide (j = i)) as [->|Hne].
      * rewrite Hfind. unfold selects. rewrite Hrep, Hidi, Z.eqb_refl. cbn [andb].
        rewrite Hr, Hp, lookup_delete_eq. split; [done|].
        apply list_lookup_insert_eq. by eapply lookup_lt_Some.
      * assert (Hidne : id i ≠ id j) by (subst id; simpl; lia).
        assert (Hpne : p i ≠ p j) by (subst p; simpl; lia).
        assert (Hsne : sid i ≠ sid j) by (subst sid; simpl; lia).
        assert (Hsel : selects (id j) f = false).
        { unfold selects. rewrite Hidi. apply andb_false_intro2.
          by apply Z.eqb_neq. }
        rewrite Hsel. destruct (find (selects (id j)) seen).
        -- rewrite Hr, Hp. destruct Hex as [Hg Hpj]. split.
           ++ by rewrite lookup_delete_ne.
           ++ by rewrite list_lookup_insert_ne.
        -- destruct Hex as (Hrj & Hsj & Hpj). unfold open_exchange.
           rewrite Hr, Hs, Hp. split_and!.
           ++ by rewrite lookup_delete_ne.
           ++ by rewrite list_lookup_insert_ne.
           ++ by rewrite list_lookup_insert_ne.
    + intros id' sid'. rewrite Hr. intros [_ Hl']%lookup_delete_Some. eauto.
  - (* no exchange bears that identifier: the frame is logged and dropped *)
    rewrite drain_nil by done.
    split_and!; [done| |done].
    intros i Hi. specialize (Hex i Hi). rewrite find_snoc. fold (id i) (p i) (sid i).
    destruct (find (selects (id i)) seen); [done|].
    assert (Hsel : selects (id i) f = false).
    { unfold selects. apply andb_false_intro2. apply Z.eqb_neq. intros Heq.
      destruct Hex as [Hri _]. rewrite <- Heq in Hri. congruence. }
    by rewrite Hsel.
Qed.

Lemma routed_receive m0 S0 P0 n fuel frames : ∀ s seen,
  routed m0 S0 P0 n s seen → routed m0 S0 P0 n (receive fuel frames s) (seen ++ frames).
Proof.
  induction frames as [|f frames IH]; intros s seen H; cbn [receive foldl].
  - by rewrite app_nil_r.
  - rewrite (cons_middle f seen frames), (assoc_L (++)).
    apply IH. by apply routed_step.
Qed.

(** C1.  On a connected client with no exchange outstanding, the
    one-shot calls issued before any reply arrives are allocated the
    identifiers that follow the counter, one each, and whatever frames
    then arrive, in whatever order, the promise of each call is resolved
    by the first reply frame that bears the identifier of that call, and
    stays pending while no such frame has arrived: a frame that bears
    another identifier never reaches it. *)
Theorem no_cross_talk (s : state) (msgs : list ClientMessageWithoutId)
    (frames : list ServerMessage) (fuel : nat) :
  connected s = true → connectionPromise s = None → microtasks s = [] →
  replies s = ∅ → (messageId s + Z.of_nat (length msgs) ≤ MAX_SAFE)%Z →
  let '(ps, s1) := one_shot_calls msgs s in
  let s2 := receive fuel frames (drain (length msgs) s1) in
  length ps = length msgs ∧
  ∀ i p, ps !! i = Some p →
    replies s1 !! (messageId s + 1 + Z.of_nat i)%Z = Some (length (subjects s) + i) ∧
    promises s2 !! p =
      Some (match find (selects (messageId s + 1 + Z.of_nat i)) frames with
            | Some f => Settled (Fulfilled (VMessage f))
            | None => Pending []
            end).
Proof.
  intros Hc Hcp Hq Hr Hb.
  pose proof (one_shot_calls_spec msgs s Hcp Hc Hb) as Hspec.
  destruct (one_shot_calls msgs s) as [ps s1].
  destruct Hspec as (Hps & Hopen & Hrep & Hsub & Hpro & l & Hl & Hq1).
  rewrite Hq in Hq1. cbn [app] in Hq1.
  intros s2.
  assert (Hlen : length ps = length msgs) by (by rewrite Hps, length_map, length_seq).
  split; [done|].
  destruct (drain_sends_frame l s1 Hq1) as (Hq2 & Hr2 & Hs2 & Hp2).
  rewrite Hl in Hq2, Hr2, Hs2, Hp2.
  assert (Hrouted : routed (messageId s) (length (subjects s)) (length (promises s))
                      (length msgs) (drain (length msgs) s1) []).
  { split_and!; [done| |].
    - intros i Hi. cbn [find]. unfold open_exchange. rewrite Hr2, Hs2, Hp2. by apply Hopen.
    - intros id' sid'. rewrite Hr2. intros Hlook.
      destruct (decide (id' ≤ messageId s ∨ messageId s + Z.of_nat (length msgs) < id')%Z) as [Hout|Hin].
      + rewrite Hrep, Hr in Hlook by done. by rewrite lookup_empty in Hlook.
      + exists (Z.to_nat (id' - messageId s - 1)). split; lia. }
  apply (routed_receive _ _ _ _ fuel frames) in Hrouted. cbn [app] in Hrouted.
  destruct Hrouted as (_ & Hex & _).
  intros i p Hi.
  assert (Hlt : i < length msgs) by (rewrite <- Hlen; by eapply lookup_lt_Some).
  assert (p = length (promises s) + 2 * i + 1) as ->.
  { rewrite Hps in Hi. change (map ?f ?l) with (f <$> l) in Hi.
    rewrite list_lookup_fmap, lookup_seq_lt in Hi by done.
    cbn [fmap option_fmap option_map] in Hi. injection Hi as <-. lia. }
  split; [by apply Hopen|].
  specialize (Hex i Hlt). fold s2 in Hex.
  destruct (find _ frames); [by destruct Hex|by destruct Hex as (_ & _ & ?)].
Qed.





Lemma on_settled_replies p k s : replies (on_settled p k s) = replies s.
Proof. unfold on_settled. by repeat case_match. Qed.
Lemma on_settled_subjects p k s : subjects (on_settled p k s) = subjects s.
Proof. unfold on_settled. by repeat case_match. Qed.
Lemma on_settled_sockets p k s : sockets (on_settled p k s) = sockets s.
Proof. unfold on_settled. by repeat case_match. Qed.

Lemma connect_replies s : replies (connect s).2 = replies s.
Proof.
  unfold connect, new_promise, connect_loop, doConnect, new_promise. fields.
  repeat case_match; fields;
    rewrite ?on_settled_replies; unfold resolve; rewrite ?settle_replies; done.
Qed.

Lemma connect_subjects s : subjects (connect s).2 = subjects s.
Proof.
  unfold connect, new_promise, connect_loop, doConnect, new_promise. fields.
  repeat case_match; fields;
    rewrite ?on_settled_subjects; unfold resolve; rewrite ?settle_subjects; done.
Qed.

(** The routing entry is in place when [sendMessage] returns. *)
Lemma sendMessage_installs m s :
  let '(subject, s1) := sendMessage m s in
  let id := js_incr (messageId s) in
  subject = length (subjects s) ∧
  messageId s1 = id ∧
  replies s1 !! id = Some subject ∧
  subjects s1 !! subject = Some (fresh_subject id []).
Proof.
  unfold sendMessage, new_subject. fields.
  set (s0 := set_replies _ _).
  pose proof (connect_replies s0) as Hr. pose proof (connect_subjects s0) as Hs.
  assert (Hm : messageId (connect s0).2 = js_incr (messageId s)).
  { unfold connect, new_promise, connect_loop, doConnect, new_promise, on_settled, resolve, settle.
    fields. repeat case_match; done. }
  destruct (connect s0) as [p s1]. fields.
  split; [done|]. split.
  { unfold on_settled. by repeat case_match. }
  rewrite on_settled_replies, on_settled_subjects, Hr, Hs. subst s0. fields.
  split; [apply lookup_insert_eq|].
  rewrite lookup_app_r by done. by rewrite Nat.sub_diag.
Qed.

(** The state [sendMessage] leaves on a client that has to connect
    first. *)
Lemma sendMessage_idle m s :
  connectionPromise s = None → connected s = false →
  let id := js_incr (messageId s) in
  let sid := length (subjects s) in
  let out := length (promises s) in
  sendMessage m s =
    (sid,
     set_socket (Some (length (sockets s)))
       (set_sockets (sockets s ++ [{| ws_promise := S out; ws_sent := []; ws_closed := false |}])
          (set_promises (promises s ++ [Pending [KSend (CmRequest id m) sid];
                                        Pending [KConnectTry out]])
             (set_connectionPromise (Some (S out))
                (set_connectionTries (js_incr (connectionTries s))
                   (set_subjects (subjects s ++ [fresh_subject id []])
                      (set_replies (<[id := sid]> (replies s))
                         (set_messageId id s)))))))).
Proof.
  intros Hcp Hc. unfold sendMessage, new_subject. fields.
  rewrite connect_first by done. fields. unfold attempt_started, on_settled. fields.
  rewrite lookup_app_r by done. rewrite Nat.sub_diag. cbn [lookup list_lookup].
  f_equal. state_eq. rewrite insert_app_r_alt by done. by rewrite Nat.sub_diag.
Qed.


(** * The identifier counter *)

(** Only [sendMessage] writes [messageId]; every other operation leaves
    it alone. *)

Create Rewrite HintDb mid.

Ltac mid_step :=
  first [ progress fields
        | progress autorewrite with mid
        | case_match ].

Ltac mid := intros; repeat mid_step; try done.

Lemma on_settled_messageId p k s : messageId (on_settled p k s) = messageId s.
Proof. unfold on_settled. mid. Qed.
Lemma resolve_messageId p v s : messageId (resolve p v s) = messageId s.
Proof. apply settle_messageId. Qed.
Lemma reject_messageId p e s : messageId (reject p e s) = messageId s.
Proof. apply settle_messageId. Qed.
Lemma add_log_messageId e s : messageId (add_log e s) = messageId s.
Proof. done. Qed.
Lemma set_subject_messageId sid sj s : messageId (set_subject sid sj s) = messageId s.
Proof. done. Qed.
Lemma set_call_messageId c call s : messageId (set_call c call s) = messageId s.
Proof. done. Qed.
#[export] Hint Rewrite settle_messageId on_settled_messageId resolve_messageId reject_messageId
  tearDown_messageId add_log_messageId set_subject_messageId set_call_messageId : mid.

Lemma complete_observers_messageId t os s :
  messageId (complete_observers t os s) = messageId s.
Proof. revert s. induction os as [|[p|c|k] os IH]; intros s; cbn [complete_observers]; rewrite ?IH; mid. Qed.
#[export] Hint Rewrite complete_observers_messageId : mid.

Lemma error_observers_messageId t e os s :
  messageId (error_observers t e os s) = messageId s.
Proof. revert s. induction os as [|[p|c|k] os IH]; intros s; cbn [error_observers]; rewrite ?IH; mid. Qed.
#[export] Hint Rewrite error_observers_messageId : mid.

Lemma complete_messageId sid s : messageId (complete sid s) = messageId s.
Proof. unfold complete. mid. Qed.
Lemma error_messageId sid e s : messageId (error sid e s) = messageId s.
Proof. unfold error. mid. Qed.
#[export] Hint Rewrite complete_messageId error_messageId : mid.

Lemma close_messageId sid s : messageId (close sid s) = messageId s.
Proof. unfold close. mid. Qed.
Lemma unsubscribe_messageId sid o s : messageId (unsubscribe sid o s) = messageId s.
Proof. unfold unsubscribe. mid. Qed.
#[export] Hint Rewrite close_messageId unsubscribe_messageId : mid.

Lemma subscribe_messageId sid o s : messageId (subscribe sid o s) = messageId s.
Proof. unfold subscribe. mid. Qed.
#[export] Hint Rewrite subscribe_messageId : mid.

Lemma firstAndClose_messageId sid s : messageId (firstAndClose sid s).2 = messageId s.
Proof. unfold firstAndClose, new_promise. mid. Qed.

Lemma send_messageId m s s' : send m s = inr s' → messageId s' = messageId s.
Proof. unfold send. intros. repeat case_match; simplify_eq; done. Qed.

Lemma connect_loop_messageId out s : messageId (connect_loop out s) = messageId s.
Proof. unfold connect_loop, doConnect, new_promise. mid. Qed.
#[export] Hint Rewrite connect_loop_messageId : mid.

Lemma connect_messageId s : messageId (connect s).2 = messageId s.
Proof. unfold connect, new_promise. mid. Qed.

Lemma disconnect_messageId s : messageId (disconnect s) = messageId s.
Proof. unfold disconnect. mid. Qed.

Lemma run_live_teardown_messageId t s : messageId (run_live_teardown t s) = messageId s.
Proof.
  unfold run_live_teardown, unsubscribeCollection.
  destruct t; repeat case_match; fields; try done;
    match goal with H : send _ _ = inr _ |- _ => by apply send_messageId in H end.
Qed.

Lemma foldl_teardowns_messageId ts : ∀ s,
  messageId (foldl (λ s t, run_live_teardown t s) s ts) = messageId s.
Proof.
  induction ts as [|t ts IH]; intros s; cbn [foldl]; [done|].
  by rewrite IH, run_live_teardown_messageId.
Qed.

Lemma releaseEntity_messageId h s : messageId (releaseEntity h s) = messageId s.
Proof. unfold releaseEntity. repeat case_match; rewrite ?foldl_teardowns_messageId; done. Qed.

Lemma releaseCollection_messageId h s : messageId (releaseCollection h s) = messageId s.
Proof. unfold releaseCollection. repeat case_match; rewrite ?foldl_teardowns_messageId; done. Qed.

Lemma handleEntity_messageId c i s : messageId (handleEntity c i s).2 = messageId s.
Proof. unfold handleEntity. mid. Qed.

Lemma deserializeResult_messageId call sid next s :
  messageId (deserializeResult call sid next s).2 = messageId s.
Proof. unfold deserializeResult. mid. Qed.

Lemma stream_type_messageId c sid call reply t s :
  messageId (stream_type c sid call reply t s) = messageId s.
Proof.
  unfold stream_type, handler_throws, addTearDown.
  destruct t as [| ? [item|] | | |]; try (mid; fail).
  repeat case_match; fields; autorewrite with mid;
    match goal with
    | H : handleEntity ?c ?i ?s = (_, ?s') |- _ =>
        pose proof (handleEntity_messageId c i s) as Hh; rewrite H in Hh; fields; try done
    | _ => idtac
    end; try done.
  all: repeat case_match; fields; done.
Qed.
#[export] Hint Rewrite stream_type_messageId : mid.

Lemma stream_reply_messageId c sid reply s :
  messageId (stream_reply c sid reply s) = messageId s.
Proof.
  unfold stream_reply, handleCollectionNext.
  destruct (calls s !! c) as [call|]; [|done].
  destruct (sm_body reply); try done; try (mid; fail).
  all: repeat case_match; fields; autorewrite with mid;
    repeat match goal with
    | H : deserializeResult ?a ?b ?n ?s = (_, ?s') |- _ =>
        pose proof (deserializeResult_messageId a b n s) as Hd; rewrite H in Hd; fields;
        clear H
    end; try done; try congruence.
Qed.
#[export] Hint Rewrite stream_reply_messageId : mid.

Lemma observer_next_messageId sid o v s :
  messageId (observer_next sid o v s) = messageId s.
Proof. unfold observer_next. mid. Qed.
#[export] Hint Rewrite observer_next_messageId : mid.

Lemma next_observers_messageId sid v os : ∀ s,
  messageId (next_observers sid v os s) = messageId s.
Proof.
  induction os as [|o os IH]; intros s; cbn [next_observers]; [done|].
  case_match; [done|]. by rewrite IH, observer_next_messageId.
Qed.
#[export] Hint Rewrite next_observers_messageId : mid.

Lemma next_messageId sid v s : messageId (next sid v s) = messageId s.
Proof. unfold next. mid. Qed.
#[export] Hint Rewrite next_messageId : mid.

Lemma onMessage_messageId message s : messageId (onMessage message s) = messageId s.
Proof. unfold onMessage, handleEntityMessage. mid. Qed.

Lemma socket_onerror_messageId sock reason s :
  messageId (socket_onerror sock reason s) = messageId s.
Proof. unfold socket_onerror. mid. Qed.

Lemma socket_onmessage_messageId sock message s :
  messageId (socket_onmessage sock message s) = messageId s.
Proof. unfold socket_onmessage. case_match; [apply onMessage_messageId|done]. Qed.

Lemma observable_subscribe_messageId c o s :
  messageId (observable_subscribe c o s).2 = messageId s.
Proof.
  unfold observable_subscribe. repeat case_match; fields; try done;
    match goal with H : send _ _ = inr _ |- _ => by apply send_messageId in H end.
Qed.

Lemma observable_unsubscribe_messageId c i s :
  messageId (observable_unsubscribe c i s) = messageId s.
Proof.
  unfold observable_unsubscribe. repeat case_match; fields; try done;
    match goal with H : send _ _ = inr _ |- _ => by apply send_messageId in H end.
Qed.

(** [sendMessage] is the one writer, and it only counts up. *)
Lemma sendMessage_messageId m s : messageId (sendMessage m s).2 = js_incr (messageId s).
Proof.
  pose proof (sendMessage_installs m s) as H. destruct (sendMessage m s). by destruct H as (_ & ? & _).
Qed.

#[export] Instance id_le_preorder : PreOrder id_le.
Proof. split; unfold id_le; [intros ?; lia|intros ???; lia]. Qed.

Lemma id_le_eq s s' : messageId s' = messageId s → id_le s s'.
Proof. unfold id_le. lia. Qed.

Lemma sendMessage_id_le m s : id_le s (sendMessage m s).2.
Proof. unfold id_le. rewrite sendMessage_messageId. apply js_incr_le. Qed.

Lemma authenticate_id_le s : id_le s (authenticate s).2.
Proof.
  unfold authenticate, new_promise.
  set (s0 := set_promises _ s).
  pose proof (sendMessage_id_le (MsgAuthenticate (default "" (token s0))) s0) as Hs.
  destruct (sendMessage _ s0) as [subject s1].
  pose proof (firstAndClose_messageId subject s1) as Hf.
  destruct (firstAndClose subject s1) as [p s2]. fields.
  unfold id_le in *. rewrite on_settled_messageId. subst s0. fields. lia.
Qed.

Lemma getActionTypes_id_le c a s : id_le s (getActionTypes c a s).2.
Proof.
  unfold getActionTypes, new_promise. fields.
  set (s0 := match cachedActionsTypes s !! c with
             | Some _ => _
             | None => set_cachedActionsTypes _ _
             end).
  assert (H0 : messageId s0 = messageId s) by (subst s0; by case_match).
  destruct (_ ≫= _); fields.
  { apply id_le_eq. by rewrite resolve_messageId. }
  pose proof (sendMessage_id_le (MsgActionTypes c a) s0) as Hs.
  destruct (sendMessage _ s0) as [subject s1].
  pose proof (firstAndClose_messageId subject s1) as Hf.
  destruct (firstAndClose subject s1) as [p s2]. fields.
  unfold id_le in *. rewrite on_settled_messageId. lia.
Qed.

Lemma stream_id_le c n args s : id_le s (stream c n args s).2.
Proof.
  unfold stream, new_promise.
  set (s0 := set_calls _ _).
  pose proof (getActionTypes_id_le c n s0) as Hg.
  destruct (getActionTypes c n s0) as [p s1]. fields.
  unfold id_le in *. rewrite on_settled_messageId. subst s0. fields. lia.
Qed.

Lemma socket_onopen_id_le sock s : id_le s (socket_onopen sock s).
Proof.
  unfold socket_onopen, onConnected, new_promise. repeat case_match; try reflexivity.
  - pose proof (authenticate_id_le s) as Ha.
    match goal with H : authenticate s = _ |- _ => rewrite H in Ha end.
    unfold id_le in *. rewrite on_settled_messageId. fields. lia.
  - simplify_eq. apply id_le_eq. by rewrite on_settled_messageId, resolve_messageId.
Qed.

Lemma run_cont_id_le k o s : id_le s (run_cont k o s).
Proof.
  destruct k, o; cbn [run_cont]; try (apply id_le_eq; mid; fail).
  - (* KSend, fulfilled *)
    destruct (send message s) eqn:E; [by apply id_le_eq|]. apply id_le_eq. by eapply send_messageId.
  - (* KOpenAuthenticated, fulfilled *)
    apply id_le_eq. unfold onConnected, new_promise.
    repeat case_match; simplify_eq; autorewrite with mid; fields; done.
  - (* KStream, fulfilled *)
    repeat case_match; try reflexivity; try (apply id_le_eq; mid; fail).
    match goal with H : sendMessage ?m ?s0 = (_, ?s') |- _ =>
      pose proof (sendMessage_id_le m s0) as Hs; rewrite H in Hs end.
    unfold id_le in *. rewrite subscribe_messageId. fields. done.
Qed.

Lemma drain_id_le fuel : ∀ s, id_le s (drain fuel s).
Proof.
  induction fuel as [|fuel IH]; intros s; cbn [drain]; [reflexivity|].
  destruct (microtasks s) as [|[k o] rest]; [reflexivity|].
  etrans; [|apply IH]. etrans; [|apply run_cont_id_le]. by apply id_le_eq.
Qed.

Lemma handle_id_le e s : id_le s (handle e s).
Proof.
  destruct e; cbn [handle].
  - apply id_le_eq, connect_messageId.
  - apply id_le_eq, disconnect_messageId.
  - apply sendMessage_id_le.
  - apply id_le_eq, firstAndClose_messageId.
  - apply id_le_eq, close_messageId.
  - apply getActionTypes_id_le.
  - apply stream_id_le.
  - apply id_le_eq, observable_subscribe_messageId.
  - apply id_le_eq, observable_unsubscribe_messageId.
  - apply id_le_eq, releaseEntity_messageId.
  - apply id_le_eq, releaseCollection_messageId.
  - apply id_le_eq, socket_onerror_messageId.
  - apply socket_onopen_id_le.
  - apply id_le_eq, socket_onmessage_messageId.
Qed.

Lemma turn_id_le fuel e s : id_le s (turn fuel e s).
Proof. unfold turn. etrans; [apply handle_id_le|apply drain_id_le]. Qed.

Lemma run_id_le fuel es : ∀ s, id_le s (run fuel es s).
Proof.
  induction es as [|e es IH]; intros s; cbn [run foldl]; [reflexivity|].
  etrans; [apply (turn_id_le fuel e)|apply IH].
Qed.

(** C4 (as amended).  Message identifiers are allocated by counting up
    and are never reused over the life of the client: whatever happens
    between two calls of [sendMessage] (replies, failures, a
    [disconnect()] and a new connection included), the later call is
    allocated a greater identifier.  [disconnect()] does not touch the
    counter, so a new connection carries on from the last identifier
    instead of starting again from 1. *)
Theorem identifiers_increase_across_reconnects (s : state) (m1 m2 : ClientMessageWithoutId)
    (es : list event) (fuel : nat) :
  let '(subject1, s1) := sendMessage m1 s in
  let s2 := run fuel es s1 in
  let '(subject2, s3) := sendMessage m2 s2 in
  (messageId s2 < MAX_SAFE)%Z →
  messageId s1 = (messageId s + 1)%Z ∧
  replies s1 !! messageId s1 = Some subject1 ∧
  messageId (disconnect s1) = messageId s1 ∧
  (messageId s1 ≤ messageId s2)%Z ∧
  messageId s3 = (messageId s2 + 1)%Z ∧
  replies s3 !! messageId s3 = Some subject2 ∧
  (messageId s1 < messageId s3)%Z.
Proof.
  pose proof (sendMessage_installs m1 s) as H1.
  destruct (sendMessage m1 s) as [subject1 s1]. intros s2.
  pose proof (sendMessage_installs m2 s2) as H2.
  destruct (sendMessage m2 s2) as [subject2 s3]. intros Hb.
  destruct H1 as (_ & Hm1 & Hr1 & _), H2 as (_ & Hm2 & Hr2 & _).
  pose proof (run_id_le fuel es s1) as Hle. fold s2 in Hle. unfold id_le in Hle.
  rewrite (js_incr_below (messageId s2)) in * by done.
  assert (messageId s < MAX_SAFE)%Z.
  { pose proof (js_incr_le (messageId s)). unfold js_incr in *. case_match; lia. }
  rewrite (js_incr_below (messageId s)) in * by done.
  rewrite Hm1, Hm2, disconnect_messageId. split_and!; try done; lia.
Qed.

(** ** The entity branch of [stream] *)





(** C2.  With a token configured, [connect()] never settles: when the
    socket opens, [authenticate] goes through [sendMessage], whose frame
    waits for [connect()], which waits for the attempt in flight, which
    waits for [authenticate].  The job queue is empty, the
    ['authenticate'] frame has not been handed to the socket, and every
    promise involved is pending. *)
Theorem connect_with_token_waits_for_itself (a : Ascii.ascii) (t : string) (registered : gset string) :
  let tok := String a t in
  let '(p, s1) := connect (init (Some tok) registered) in
  let s2 := turn 10 (ESocketOpen 0) (drain 10 s1) in
  microtasks s2 = [] ∧
  sockets s2 = [{| ws_promise := 1; ws_sent := []; ws_closed := false |}] ∧
  connected s2 = false ∧
  promises s2 !! p = Some (Pending []) ∧
  connectionPromise s2 = Some 1 ∧
  promises s2 !! 1 = Some (Pending [KConnectTry p; KConnectWhile 3]) ∧
  promises s2 !! 3 = Some (Pending [KSend (CmRequest 1 (MsgAuthenticate tok)) 0]) ∧
  replies s2 !! 1%Z = Some 0.
Proof. vm_compute. by repeat split. Qed.

Section chunks.
Import Chunks.

Lemma samples_current_le p chunks :
  Forall (λ c, 0 ≤ c)%Z chunks →
  Forall (λ q, current p ≤ current q)%Z (samples p chunks) ∧
  Sorted Z.le (map current (samples p chunks)).
Proof.
  revert p. induction chunks as [|c chunks IH]; intros p Hc; cbn [samples map].
  - split; constructor.
  - apply Forall_cons in Hc as [Hc0 Hc]. destruct (IH (received p c) Hc) as [Hle Hs].
    split.
    + constructor; [simpl; lia|]. eapply Forall_impl; [exact Hle|]. simpl. intros; lia.
    + constructor; [done|].
      destruct (samples (received p c) chunks) as [|q qs] eqn:E; constructor.
      apply Forall_cons in Hle as [Hq _]. done.
Qed.

Lemma progress_le_1 p : (progress p <= 1)%Q.
Proof. apply Q.le_min_l. Qed.

Lemma chunk_lengths_650000 overhead :
  (0 ≤ overhead ≤ 50000)%Z →
  chunk_lengths 100000 (650000 + overhead) =
    [100000; 100000; 100000; 100000; 100000; 100000; 50000 + overhead]%Z.
Proof.
  intros H. unfold chunk_lengths.
  destruct (decide (overhead = 50000%Z)) as [->|Hne]; [done|].
  replace (650000 + overhead)%Z with ((50000 + overhead) + 6 * 100000)%Z by lia.
  rewrite Z.div_add, Z.mod_add by lia.
  rewrite Z.div_small, Z.mod_small by lia. cbn [Z.add Z.to_nat Pos.to_nat Pos.iter_op Init.Nat.add replicate app].
  destruct (50000 + overhead =? 0)%Z eqn:E; [lia|done].
Qed.

(** C9.  A download of 650,000 bytes of payload in chunks of 100,000
    bytes reports [current] as 100000, 200000, ..., 600000 and finally
    650000 plus the envelope overhead; [current] never decreases,
    [progress] is at most 1 at every sample, [done] is true at the last
    sample only, and [progress] is 1 at completion. *)
Theorem download_progress_650000 (overhead : Z) :
  (0 ≤ overhead ≤ 50000)%Z →
  let ps := download 100000 650000 overhead in
  map current ps = [100000; 200000; 300000; 400000; 500000; 600000; 650000 + overhead]%Z ∧
  Sorted Z.le (map current ps) ∧
  Forall (λ p, progress p <= 1)%Q ps ∧
  map done ps = [false; false; false; false; false; false; true] ∧
  (∀ p, last ps = Some p → (progress p == 1)%Q).
Proof.
  intros H ps. subst ps. unfold download.
  pose proof (samples_current_le {| total := 650000 + overhead; current := 0 |}
                (chunk_lengths 100000 (650000 + overhead))) as Hmono.
  rewrite chunk_lengths_650000 in * by done.
  split; [|split; [|split; [|split]]].
  - cbn [samples map received current total].
    repeat (apply (f_equal2 cons); [lia|]). reflexivity.
  - apply Hmono. repeat constructor; lia.
  - apply Forall_forall. intros p _. apply progress_le_1.
  - unfold done. cbn [samples map received current total].
    repeat (apply (f_equal2 cons); [first [apply Z.leb_gt; lia | apply Z.leb_le; lia]|]).
    reflexivity.
  - cbn [samples received current total last].
    intros p [= <-]. unfold progress. cbn [current total received].
    apply Q.min_l. unfold Qle. cbn [Qnum Qden]. rewrite Z2Pos.id by lia. lia.
Qed.

End chunks.

Lemma concurrent_connect_single_attempt_witness :
  let s2 := drain 3 (socket_onerror 0 "refused" (connects 3 (init None ∅)).2) in
  (connects 3 (init None ∅)).1 = [0; 2; 3] ∧
  length (sockets s2) = 1 ∧
  promises s2 !! 2 = Some (Settled (Rejected (ErrCouldNotConnect "refused"))).
Proof.
  pose proof (concurrent_connect_single_attempt (init None ∅) 2 "refused"
                eq_refl eq_refl eq_refl) as H.
  vm_compute in H. destruct H as (Houts & _ & _ & _ & _ & _ & _ & _ & Hlen & Hrej).
  split; [exact Houts|]. split; [exact Hlen|].
  exact (Hrej 2 (list_elem_of_further _ _ _ (list_elem_of_here _ _))).
Defined.

Lemma no_cross_talk_witness :
  let '(ps, s1) := one_shot_calls [actionTypes_request; listing_request] connected_client in
  let s2 := receive 5 [no_such_action; get_types; {| sm_id := 2; sm_body := SmComplete |}]
              (drain 2 s1) in
  ps = [4; 6] ∧
  promises s2 !! 4 = Some (Settled (Fulfilled (VMessage get_types))) ∧
  promises s2 !! 6 = Some (Settled (Fulfilled (VMessage no_such_action))).
Proof.
  pose proof (no_cross_talk connected_client [actionTypes_request; listing_request]
                [no_such_action; get_types; {| sm_id := 2; sm_body := SmComplete |}] 5
                ltac:(by vm_compute) ltac:(by vm_compute) ltac:(by vm_compute) ltac:(by vm_compute) ltac:(by vm_compute)) as H.
  vm_compute in H. vm_compute. destruct H as [_ H].
  split; [reflexivity|]. split.
  - exact (proj2 (H 0 4 eq_refl)).
  - exact (proj2 (H 1 6 eq_refl)).
Defined.



(** After a [disconnect()] and a new connection, the next identifier is
    2, not 1. *)
Lemma identifiers_not_reset_by_reconnect :
  let s := run 10 [ESendMessage actionTypes_request; EDisconnect; EConnect; ESocketOpen 1;
                   ESendMessage actionTypes_request] connected_client in
  connected s = true ∧ socket s = Some 1 ∧ messageId s = 2%Z ∧
  ws_sent <$> sockets s = [[CmRequest 1 actionTypes_request]; [CmRequest 2 actionTypes_request]].
Proof. by vm_compute. Qed.

Lemma identifiers_increase_across_reconnects_witness :
  let s1 := (sendMessage actionTypes_request connected_client).2 in
  let s2 := run 10 [EDisconnect; EConnect; ESocketOpen 1] s1 in
  let s3 := (sendMessage listing_request s2).2 in
  messageId s1 = 1%Z ∧ messageId s3 = 2%Z.
Proof.
  pose proof (identifiers_increase_across_reconnects connected_client actionTypes_request
                listing_request [EDisconnect; EConnect; ESocketOpen 1] 10) as H.
  vm_compute in H. destruct (H eq_refl) as (H1 & _ & _ & _ & H3 & _).
  split; [exact H1|exact H3].
Defined.



(** [close()] twice invokes the teardown closure twice, and no
    ['unsubscribe'] notification is sent at all. *)
Lemma close_twice_invokes_teardown_twice :
  let s := run 10 [EClose 0; EClose 0] one_exchange in
  teardownCalls s = [TdDeleteReply 1; TdDeleteReply 1] ∧
  ws_sent <$> sockets s = [[CmRequest 1 actionTypes_request]].
Proof. by vm_compute. Qed.

Lemma close_twice_and_late_terminal_frame_witness :
  let s1 := close 0 one_exchange in
  close 0 s1 = set_teardownCalls [TdDeleteReply 1; TdDeleteReply 1] s1 ∧
  onMessage (Some {| sm_id := 1; sm_body := SmComplete |}) s1 =
    add_log (ConsoleError {| sm_id := 1; sm_body := SmComplete |}) s1.
Proof.
  destruct (close_twice_and_late_terminal_frame one_exchange 0 (fresh_subject 1 []) 1
              {| sm_id := 1; sm_body := SmComplete |}
              ltac:(by vm_compute) eq_refl eq_refl (or_introl eq_refl))
    as (_ & _ & _ & Hagain & Hlate).
  split; [exact Hagain|exact Hlate].
Defined.

(** The first reply is an error-kind frame: [firstAndClose()] resolves
    with it. *)
Lemma firstAndClose_resolves_with_error_frame :
  let '(_, p, s) := sendMessage_firstAndClose actionTypes_request connected_client in
  let s' := turn 10 (ESocketMessage 0 (Some {| sm_id := 1; sm_body := SmError "boom" |}))
              (drain 10 s) in
  promises s' !! p =
    Some (Settled (Fulfilled (VMessage {| sm_id := 1; sm_body := SmError "boom" |}))).
Proof. by vm_compute. Qed.

Lemma firstAndClose_resolves_with_first_reply_witness :
  let '(p, s1) := firstAndClose 0 one_exchange in
  let s2 := next 0 (VMessage {| sm_id := 1; sm_body := SmError "boom" |}) s1 in
  promises s2 !! p =
    Some (Settled (Fulfilled (VMessage {| sm_id := 1; sm_body := SmError "boom" |}))) ∧
  replies s2 !! 1%Z = None.
Proof.
  pose proof (firstAndClose_resolves_with_first_reply one_exchange 0 (fresh_subject 1 [])
                (VMessage {| sm_id := 1; sm_body := SmError "boom" |})
                ltac:(by vm_compute) eq_refl eq_refl (Forall_nil_2 _)) as H.
  destruct (firstAndClose 0 one_exchange) as [p s1].
  destruct H as (_ & Hp & _ & Hr). split; [exact Hp|exact (Hr 1%Z eq_refl)].
Defined.

Lemma download_progress_650000_witness :
  map Chunks.current (Chunks.download 100000 650000 25) =
    [100000; 200000; 300000; 400000; 500000; 600000; 650025]%Z ∧
  map Chunks.done (Chunks.download 100000 650000 25) =
    [false; false; false; false; false; false; true].
Proof.
  destruct (download_progress_650000 25 ltac:(lia)) as (Hc & _ & _ & Hd & _).
  split; [exact Hc|exact Hd].
Defined.



(** * More of MessageSubject *)

(** X1.  [close()] on an exchange whose [firstAndClose()] has not yet
    received a reply rejects the pending promise with rxjs's
    [EmptyError]; the routing entry is removed, the subject is completed,
    nothing is sent or queued, and the teardown closure runs twice (once
    for the [close()] itself, once for the teardown [firstAndClose] added
    to its subscription). *)
Theorem close_rejects_pending_firstAndClose (s : state) (sid p : nat) (id : Z) :
  subjects s !! sid = Some (fresh_subject id [ObsFirst p]) →
  promises s !! p = Some (Pending []) →
  let s1 := close sid s in
  promises s1 !! p = Some (Settled (Rejected EmptyError)) ∧
  replies s1 !! id = None ∧
  subjects s1 !! sid = Some (stopped (fresh_subject id [])) ∧
  teardownCalls s1 = teardownCalls s ++ [TdDeleteReply id; TdDeleteReply id] ∧
  sockets s1 = sockets s ∧ microtasks s1 = microtasks s.
Proof.
  intros Hs Hp s1. subst s1.
  assert (Hlt : sid < length (subjects s)) by by eapply lookup_lt_Some.
  assert (Hlp : p < length (promises s)) by by eapply lookup_lt_Some.
  unfold close. rewrite Hs. cbn [fresh_subject teardown].
  unfold complete. rewrite tearDown_subjects, Hs.
  cbn [fresh_subject teardown isStopped thrownError observers complete_observers].
  unfold set_subject.
  rewrite (reject_pending p EmptyError) by (fields; by rewrite tearDown_promises).
  cbn [tearDown]. fields. split_and!; try done.
  - by apply list_lookup_insert_eq.
  - apply lookup_delete_eq.
  - by apply list_lookup_insert_eq.
  - by rewrite <- (assoc_L (++)).
Qed.



(** A call that finds its key cached resolves at once and touches
    nothing else. *)
Lemma getActionTypes_cached c a t s :
  cached c a s = Some t →
  getActionTypes c a s =
    (length (promises s),
     set_promises (promises s ++ [Settled (Fulfilled (VActionTypes t))]) s).
Proof.
  intros Hcache. unfold getActionTypes, new_promise. unfold cached in Hcache.
  destruct (cachedActionsTypes s !! c) as [inner|] eqn:E; [|done]. fields. rewrite E.
  fields. rewrite E, Hcache. f_equal.
  unfold resolve, settle. fields. rewrite lookup_app_r by done. rewrite Nat.sub_diag.
  cbn [lookup list_lookup map]. state_eq.
  - rewrite insert_app_r_alt by done. by rewrite Nat.sub_diag.
  - by rewrite app_nil_r.
Qed.






(** * A connection attempt that succeeds *)

Lemma resolve_pending_nil out v s :
  promises s !! out = Some (Pending []) →
  resolve out v s = set_promises (<[out := Settled (Fulfilled v)]> (promises s)) s.
Proof.
  intros H. unfold resolve, settle. rewrite H. state_eq. cbn [map]. by rewrite app_nil_r.
Qed.

(** Jobs of callers parked in the [while] loop of [connect], run once
    the attempt has succeeded: every caller finds the client connected
    and resolves. *)
Lemma drain_fulfilled_waiters v : ∀ outs s,
  microtasks s = map (λ out, (KConnectWhile out, Fulfilled v)) outs →
  NoDup outs → connectionPromise s = None → connected s = true →
  (∀ out, out ∈ outs → promises s !! out = Some (Pending [])) →
  let s' := drain (length outs) s in
  microtasks s' = [] ∧ sockets s' = sockets s ∧ socket s' = socket s ∧
  connected s' = true ∧ connectionPromise s' = None ∧
  connectionTries s' = connectionTries s ∧
  (∀ out, out ∈ outs → promises s' !! out = Some (Settled (Fulfilled VUndefined))) ∧
  (∀ p o, promises s !! p = Some (Settled o) → promises s' !! p = Some (Settled o)).
Proof.
  induction outs as [|out outs IH]; intros s Hq Hnd Hcp Hc Hp; cbn [length].
  - rewrite drain_nil by done. split_and!; try done. intros out H. by apply elem_of_nil in H.
  - cbn [map] in Hq. rewrite (drain_cons _ _ _ _ _ Hq). cbn [run_cont].
    apply NoDup_cons in Hnd as [Hnotin Hnd].
    unfold connect_loop. fields. rewrite Hcp, Hc.
    rewrite resolve_pending_nil by (fields; apply Hp; by left).
    set (s1 := set_promises _ _).
    assert (Hlt : out < length (promises s)).
    { eapply lookup_lt_Some. apply Hp. by left. }
    destruct (IH s1) as (Hq' & Hs' & Hso' & Hc' & Hcp' & Htr' & Hful & Hkeep).
    + done.
    + done.
    + done.
    + done.
    + intros o Ho. subst s1. fields.
      rewrite list_lookup_insert_ne by (intros ->; done). apply Hp. by right.
    + split_and!; try done.
      * intros o [->|Ho]%elem_of_cons; [|by apply Hful].
        apply Hkeep. subst s1. fields. by apply list_lookup_insert_eq.
      * intros p o Hpo. apply Hkeep. subst s1. fields.
        rewrite list_lookup_insert_ne; [done|]. intros ->.
        specialize (Hp p (ltac:(by left))). congruence.
Qed.

(** The state overlapping callers of [connect()] leave on a client that
    is not connected. *)
Lemma connects_first n s :
  connectionPromise s = None → connected s = false →
  let P := length (promises s) in
  connects (S n) s =
    (P :: seq (S (S P)) n,
     set_promises (<[S P := Pending (KConnectTry P :: map KConnectWhile (seq (S (S P)) n))]>
                     (promises (attempt_started s) ++ replicate n (Pending [])))
       (attempt_started s)).
Proof.
  intros Hcp Hc P. cbn [connects]. rewrite connect_first by done.
  assert (Hlen0 : length (promises (attempt_started s)) = S (S P)).
  { unfold attempt_started. fields. rewrite length_app. cbn [length]. subst P. lia. }
  rewrite (connects_join n (S P) [KConnectTry P]); [| done |].
  - by rewrite Hlen0.
  - unfold attempt_started. fields. rewrite lookup_app_r by (subst P; lia).
    subst P. by replace (S (length (promises s)) - length (promises s)) with 1 by lia.
Qed.

(** X4.  When the socket of an attempt opens on a client without a
    token, every caller of [connect()] that was waiting for the attempt
    resolves; the client is connected, [connectionTries] is back to 0,
    no attempt is in flight any more, and the job queue is empty.  A
    caller of [connect()] that comes afterwards resolves at once, without
    a new socket and without counting a try. *)
Theorem open_resolves_every_waiting_caller (s : state) (n : nat) :
  connectionPromise s = None → connected s = false → microtasks s = [] →
  has_token s = false →
  let '(outs, s1) := connects (S n) s in
  let sock := length (sockets s) in
  let s2 := turn (S (S n)) (ESocketOpen sock) s1 in
  connected s2 = true ∧ connectionTries s2 = 0%Z ∧ connectionPromise s2 = None ∧
  microtasks s2 = [] ∧ socket s2 = Some sock ∧
  length (sockets s2) = S (length (sockets s)) ∧
  (∀ out, out ∈ outs → promises s2 !! out = Some (Settled (Fulfilled VUndefined))) ∧
  let '(out', s3) := connect s2 in
  promises s3 !! out' = Some (Settled (Fulfilled VUndefined)) ∧
  sockets s3 = sockets s2 ∧ connectionTries s3 = 0%Z ∧ microtasks s3 = [].
Proof.
  intros Hcp Hc Hq Htok. rewrite connects_first by done. cbv beta iota zeta.
  set (P := length (promises s)).
  set (ks := KConnectTry P :: map KConnectWhile (seq (S (S P)) n)).
  set (s0 := attempt_started s).
  assert (Hp0 : promises s0 = promises s ++ [Pending []; Pending [KConnectTry P]]) by done.
  assert (Hlen0 : length (promises s0) = S (S P)).
  { rewrite Hp0, length_app. cbn [length]. subst P. lia. }
  set (s1 := set_promises _ s0).
  assert (Hp1 : promises s1 = <[S P := Pending ks]> (promises s0 ++ replicate n (Pending []))) by done.
  assert (Hlen1 : length (promises s1) = S (S P) + n).
  { rewrite Hp1, length_insert, length_app, Hlen0, length_replicate. done. }
  assert (Hcp1 : promises s1 !! S P = Some (Pending ks)).
  { rewrite Hp1. apply list_lookup_insert_eq. rewrite length_app. lia. }
  assert (Hpend : ∀ out, out ∈ P :: seq (S (S P)) n → promises s1 !! out = Some (Pending [])).
  { intros out Ho. rewrite Hp1.
    apply elem_of_cons in Ho as [->|Ho].
    - rewrite list_lookup_insert_ne by lia. rewrite lookup_app_l by lia.
      rewrite Hp0. rewrite lookup_app_r by done. subst P. by rewrite Nat.sub_diag.
    - apply elem_of_seq in Ho. rewrite list_lookup_insert_ne by lia.
      rewrite lookup_app_r by lia. apply lookup_replicate_2. lia. }
  assert (Hsk1 : sockets s1 = sockets s ++ [{| ws_promise := S P; ws_sent := []; ws_closed := false |}])
    by done.
  assert (Hso1 : socket s1 = Some (length (sockets s))) by done.
  assert (Hq1 : microtasks s1 = []) by done.
  assert (Htok1 : has_token s1 = false) by done.
  assert (Hws1 : sockets s1 !! length (sockets s) =
                   Some {| ws_promise := S P; ws_sent := []; ws_closed := false |}).
  { rewrite Hsk1. rewrite lookup_app_r by done. by rewrite Nat.sub_diag. }
  clearbody s1. clear Hp1 Hp0 Hlen0. clearbody s0.
  (* the socket opens: [onConnected] is awaited *)
  assert (∃ s2, turn (S (S n)) (ESocketOpen (length (sockets s))) s1 = drain (S (S n)) s2 ∧
            s2 = set_microtasks [(KOpenConnected (length (sockets s)), Fulfilled VUndefined)]
                   (set_promises (promises s1 ++ [Settled (Fulfilled VUndefined)]) s1))
    as (s2 & -> & Hs2).
  { eexists. split; [|reflexivity]. unfold turn, handle, socket_onopen.
    rewrite Hws1, Htok1. unfold onConnected, new_promise, resolve, settle. fields.
    rewrite lookup_app_r by done. rewrite Nat.sub_diag. cbn [lookup list_lookup map].
    unfold on_settled. fields.
    rewrite list_lookup_insert_eq by (rewrite length_app; cbn [length]; lia).
    f_equal. state_eq.
    - rewrite insert_app_r_alt by done. by rewrite Nat.sub_diag.
    - by rewrite Hq1. }
  (* the attempt resolves *)
  erewrite drain_cons by (rewrite Hs2; reflexivity). cbn [run_cont].
  assert (∃ s3, (match sockets (set_microtasks [] s2) !! length (sockets s) with
                 | Some ws => resolve (ws_promise ws) VUndefined
                                (set_connectionTries 0%Z (set_connected true (set_microtasks [] s2)))
                 | None => set_microtasks [] s2
                 end) = s3 ∧
            s3 = set_microtasks (map (λ k, (k, Fulfilled VUndefined)) ks)
                   (set_promises (<[S P := Settled (Fulfilled VUndefined)]>
                                    (promises s1 ++ [Settled (Fulfilled VUndefined)]))
                      (set_connectionTries 0%Z (set_connected true s1))))
    as (s3 & -> & Hs3).
  { eexists. split; [|reflexivity]. rewrite Hs2. fields. rewrite Hws1. cbn [ws_promise].
    unfold resolve, settle. fields. rewrite lookup_app_l by lia. rewrite Hcp1.
    by state_eq. }
  clear Hs2 s2.
  assert (Hq3 : microtasks s3 = (KConnectTry P, Fulfilled VUndefined) ::
                    map (λ out, (KConnectWhile out, Fulfilled VUndefined)) (seq (S (S P)) n)).
  { rewrite Hs3. subst ks. fields. cbn [map]. by rewrite map_map. }
  assert (Hp3 : promises s3 = <[S P := Settled (Fulfilled VUndefined)]>
                                (promises s1 ++ [Settled (Fulfilled VUndefined)])).
  { by rewrite Hs3. }
  assert (Hrest3 : sockets s3 = sockets s1 ∧ socket s3 = socket s1 ∧ connected s3 = true ∧
                   connectionTries s3 = 0%Z).
  { by rewrite Hs3. }
  destruct Hrest3 as (Hsk3 & Hso3 & Hc3 & Htr3). clear Hs3.
  (* the first caller leaves its [try] block *)
  rewrite (drain_cons _ _ _ _ _ Hq3). cbn [run_cont].
  set (s3' := set_connectionPromise None _).
  assert (Hp3' : promises s3' = promises s3) by done.
  rewrite resolve_pending_nil; last first.
  { rewrite Hp3', Hp3. rewrite list_lookup_insert_ne by lia.
    rewrite lookup_app_l by lia. apply Hpend. by left. }
  set (s4 := set_promises _ _).
  assert (Hp4 : promises s4 = <[P := Settled (Fulfilled VUndefined)]> (promises s3)).
  { subst s4. fields. by rewrite Hp3'. }
  destruct (drain_fulfilled_waiters VUndefined (seq (S (S P)) n) s4)
    as (Hq' & Hs' & Hso' & Hc' & Hcp' & Htr' & Hful & Hkeep).
  { done. }
  { apply NoDup_seq. }
  { done. }
  { done. }
  { intros out Ho. rewrite Hp4, Hp3. apply elem_of_seq in Ho.
    rewrite !list_lookup_insert_ne by lia. rewrite lookup_app_l by lia.
    apply Hpend. right. by apply elem_of_seq. }
  rewrite length_seq in Hq', Hs', Hso', Hc', Hcp', Htr', Hful, Hkeep.
  set (s5 := drain n s4) in *. clearbody s5.
  split; [done|]. split; [by rewrite Htr'|]. split; [done|]. split; [done|].
  split; [rewrite Hso'; change (socket s4) with (socket s3); by rewrite Hso3|].
  split; [rewrite Hs'; change (sockets s4) with (sockets s3); rewrite Hsk3, Hsk1, length_app;
          cbn [length]; lia|].
  split.
  { intros out [->|Ho]%elem_of_cons; [|by apply Hful].
    apply Hkeep. rewrite Hp4. apply list_lookup_insert_eq.
    rewrite Hp3, length_insert, length_app. lia. }
  rewrite connect_connected by done. fields.
  split_and!; try done.
  - rewrite lookup_app_r by done. by rewrite Nat.sub_diag.
  - by rewrite Htr'.
Qed.

(** * Calls of [stream] *)

(** The argument loop succeeds only if every argument has a declared
    parameter, and then keeps the number of arguments. *)
Lemma serializeArgs_inr c n reg ps : ∀ args i args',
  serializeArgs c n reg ps i args = inr args' →
  length args' = length args ∧ (args = [] ∨ i + length args ≤ length ps).
Proof.
  induction args as [|a args IH]; intros i args' H; cbn [serializeArgs] in H.
  - injection H as <-. split; [done|by left].
  - destruct (ps !! i) as [type|] eqn:Ei; [|done].
    destruct (serializeArg c n reg i type a) as [e|a']; [done|].
    destruct (serializeArgs c n reg ps (S i) args) as [e|rest] eqn:Er; [done|].
    injection H as <-. destruct (IH _ _ Er) as [Hlen Hb].
    split; [cbn [length]; lia|]. right. cbn [length].
    apply lookup_lt_Some in Ei. destruct Hb as [->|Hb]; cbn [length]; lia.
Qed.

Lemma serializeArgs_surplus c n reg ps args :
  length ps < length args → ∃ e, serializeArgs c n reg ps 0 args = inl e.
Proof.
  intros Hlt. destruct (serializeArgs c n reg ps 0 args) as [e|args'] eqn:E; [by eexists|].
  destruct (serializeArgs_inr _ _ _ _ _ _ _ E) as [_ [->|Hb]]; cbn [length] in *; lia.
Qed.

(** X5.  A call of [stream] with more arguments than the action
    declares parameters is rejected as soon as the (cached) types are
    there, before anything else happens: no identifier is allocated, no
    exchange is opened, no connection is asked for and nothing is
    sent. *)
Theorem stream_rejects_surplus_arguments (s : state) (c n : string) (args : list json)
    (t : ActionTypes) :
  cached c n s = Some t → microtasks s = [] →
  length (parameters t) < length args →
  let '(out, s1) := stream c n args s in
  let s2 := drain 1 s1 in
  promises s1 !! out = Some (Pending []) ∧
  (∃ e, promises s2 !! out = Some (Settled (Rejected e))) ∧
  microtasks s2 = [] ∧ messageId s2 = messageId s ∧ replies s2 = replies s ∧
  subjects s2 = subjects s ∧ sockets s2 = sockets s ∧
  connectionPromise s2 = connectionPromise s ∧ connectionTries s2 = connectionTries s.
Proof.
  intros Hcache Hq Hlen. unfold stream, new_promise. fields.
  set (call := {| sc_controller := c; sc_name := n; sc_args := args;
                  sc_promise := length (promises s); sc_types := None;
                  sc_returnValue := None; sc_subscribers := ∅;
                  sc_subscriberIdCounter := 0%Z; sc_streamBehaviorSubject := None |}).
  set (s0 := set_calls _ _).
  rewrite (getActionTypes_cached c n t s0) by done.
  unfold on_settled. fields. rewrite lookup_app_r by done. rewrite Nat.sub_diag.
  cbn [lookup list_lookup]. subst s0. fields. rewrite Hq. cbn [app].
  split.
  { rewrite lookup_app_l by (rewrite length_app; cbn [length]; lia).
    rewrite lookup_app_r by done. by rewrite Nat.sub_diag. }
  erewrite drain_cons by (fields; reflexivity). cbn [drain run_cont]. fields.
  rewrite lookup_app_r by done. rewrite Nat.sub_diag. cbn [lookup list_lookup].
  cbn [call sc_controller sc_name sc_args sc_promise].
  destruct (serializeArgs_surplus c n (RegisteredEntities s) (parameters t) args Hlen) as [e He].
  rewrite He. rewrite reject_pending; last first.
  { fields. rewrite lookup_app_l by (rewrite length_app; cbn [length]; lia).
    rewrite lookup_app_r by done. by rewrite Nat.sub_diag. }
  fields. split_and!; try done. exists e.
  apply list_lookup_insert_eq. rewrite !length_app. cbn [length]. lia.
Qed.

(** A frame delivered to the subject of a call of [stream] runs the
    handler of that call. *)
Lemma onMessage_stream_reply id sid c f s :
  is_reply f = true → sm_id f = id →
  replies s !! id = Some sid →
  subjects s !! sid = Some (fresh_subject id [ObsStream c]) →
  onMessage (Some f) s = stream_reply c sid f s.
Proof.
  intros Hrep Hid Hr Hs. rewrite onMessage_reply by done. rewrite Hid, Hr.
  unfold next. rewrite Hs. cbn [fresh_subject isStopped observers next_observers].
  unfold subject_stopped. rewrite Hs. cbn [isStopped observer_next fresh_subject].
  by destruct (subject_stopped sid (stream_reply c sid f s)).
Qed.

Lemma close_fresh id sid os s :
  subjects s !! sid = Some (fresh_subject id os) → Forall (λ o, ∃ c, o = ObsStream c) os →
  close sid s =
    set_replies (delete id (replies s))
      (set_teardownCalls (teardownCalls s ++ [TdDeleteReply id])
         (set_subjects (<[sid := stopped (fresh_subject id os)]> (subjects s)) s)).
Proof.
  intros Hs Hos. unfold close. rewrite Hs. cbn [fresh_subject teardown].
  unfold complete. rewrite tearDown_subjects, Hs.
  cbn [fresh_subject teardown isStopped thrownError observers].
  set (s1 := set_subject _ _ _).
  assert (H : ∀ s', complete_observers (TdDeleteReply id) os s' = s').
  { clear Hs s1. induction os as [|o os IH]; intros s'; cbn [complete_observers]; [done|].
    apply Forall_cons in Hos as [[c ->] Hos]. by apply IH. }
  rewrite H. subst s1. unfold set_subject. cbn [tearDown]. by state_eq.
Qed.

Lemma deserializeResult_plain call sid next s :
  plain_result call → deserializeResult call sid next s = (next, s).
Proof. intros (t & Ht & Hd & He). unfold deserializeResult. by rewrite Ht, Hd, He. Qed.

(** X6.  A call of [stream] that returns a plain value.  A
    ['next/json'] frame resolves the call with its value and leaves the
    exchange open: the routing entry stays until the server sends
    ['complete'], which removes it and completes the subject without
    touching the result.  An ['error'] frame received first rejects the
    call with the server's message and ends the exchange; received after
    the value, it ends the exchange and the call keeps its value. *)
Theorem stream_plain_value_exchange (s : state) (id : Z) (sid c : nat) (call : StreamCall)
    (v : json) (err : string) :
  replies s !! id = Some sid →
  subjects s !! sid = Some (fresh_subject id [ObsStream c]) →
  calls s !! c = Some call →
  promises s !! sc_promise call = Some (Pending []) →
  plain_result call → sc_returnValue call = None → sc_streamBehaviorSubject call = None →
  let value := {| sm_id := id; sm_body := SmNextJson v |} in
  let complete := {| sm_id := id; sm_body := SmComplete |} in
  let failure := {| sm_id := id; sm_body := SmError err |} in
  let s1 := onMessage (Some value) s in
  let s2 := onMessage (Some complete) s1 in
  let s3 := onMessage (Some failure) s in
  let s4 := onMessage (Some failure) s1 in
  (promises s1 !! sc_promise call = Some (Settled (Fulfilled (VJson v))) ∧
   replies s1 !! id = Some sid ∧ subjects s1 = subjects s ∧ sockets s1 = sockets s) ∧
  (promises s2 !! sc_promise call = Some (Settled (Fulfilled (VJson v))) ∧
   replies s2 !! id = None ∧
   subjects s2 !! sid = Some (stopped (fresh_subject id [ObsStream c])) ∧
   sockets s2 = sockets s) ∧
  (promises s3 !! sc_promise call = Some (Settled (Rejected (ErrRemote err))) ∧
   replies s3 !! id = None ∧
   subjects s3 !! sid = Some (stopped (fresh_subject id [ObsStream c]))) ∧
  (promises s4 !! sc_promise call = Some (Settled (Fulfilled (VJson v))) ∧
   replies s4 !! id = None).
Proof.
  intros Hr Hs Hc Hp Hplain Hrv Hbs value complete failure s1 s2 s3 s4.
  assert (Hlp : sc_promise call < length (promises s)) by by eapply lookup_lt_Some.
  assert (Hls : sid < length (subjects s)) by by eapply lookup_lt_Some.
  assert (Hstream : Forall (λ o, ∃ c, o = ObsStream c) [ObsStream c]) by (repeat constructor; by eexists).
  (* the value *)
  assert (Hs1 : s1 = set_promises (<[sc_promise call := Settled (Fulfilled (VJson v))]> (promises s)) s).
  { subst s1 value. rewrite (onMessage_stream_reply id sid c) by done.
    unfold stream_reply. rewrite Hc. cbn [sm_body].
    rewrite deserializeResult_plain by done. by apply resolve_pending_nil. }
  assert (Hp1 : promises s1 !! sc_promise call = Some (Settled (Fulfilled (VJson v)))).
  { rewrite Hs1. fields. by apply list_lookup_insert_eq. }
  assert (Hrest1 : replies s1 = replies s ∧ subjects s1 = subjects s ∧ calls s1 = calls s ∧
                   sockets s1 = sockets s) by by rewrite Hs1.
  destruct Hrest1 as (Hr1 & Hsub1 & Hc1 & Hsk1). clearbody s1. clear Hs1.
  split; [by rewrite Hr1|].
  (* completion after the value *)
  split.
  { subst s2 complete. rewrite (onMessage_stream_reply id sid c) by (done || congruence).
    unfold stream_reply. rewrite Hc1, Hc. cbn [sm_body]. rewrite Hrv, Hbs.
    rewrite (close_fresh id sid [ObsStream c]) by (done || congruence). fields.
    rewrite Hsub1, Hsk1. split_and!; [done|apply lookup_delete_eq| |done].
    by apply list_lookup_insert_eq. }
  (* a failure first *)
  split.
  { subst s3 failure. rewrite (onMessage_stream_reply id sid c) by done.
    unfold stream_reply. rewrite Hc. cbn [sm_body]. rewrite Hrv, Hbs.
    rewrite reject_pending by done.
    rewrite (close_fresh id sid [ObsStream c]) by done. fields.
    split_and!; [by apply list_lookup_insert_eq|apply lookup_delete_eq|].
    by apply list_lookup_insert_eq. }
  (* a failure after the value *)
  subst s4 failure. rewrite (onMessage_stream_reply id sid c) by (done || congruence).
  unfold stream_reply. rewrite Hc1, Hc. cbn [sm_body]. rewrite Hrv, Hbs.
  unfold reject, settle. rewrite Hp1.
  rewrite (close_fresh id sid [ObsStream c]) by (done || congruence). fields.
  split; [done|apply lookup_delete_eq].
Qed.

(** * Observables *)


(** * Calls and the life of the connection *)

(** X8.  A frame waits for [connect()] even on a connected client, so
    a [disconnect()] made in the same turn as the call overtakes it: when
    the frame's turn comes, [send] throws ['Socket not created yet'],
    which nobody handles.  Nothing is sent, no error is delivered on the
    subject, and the routing entry stays behind. *)
Theorem disconnect_overtakes_pending_frame (s : state) (m : ClientMessageWithoutId)
    (k : nat) (ws : WebSocket) :
  connectionPromise s = None → connected s = true → microtasks s = [] →
  socket s = Some k → sockets s !! k = Some ws →
  let '(subject, s1) := sendMessage m s in
  let id := js_incr (messageId s) in
  let s2 := turn 1 EDisconnect s1 in
  microtasks s1 = [(KSend (CmRequest id m) subject, Fulfilled VUndefined)] ∧
  socket s2 = None ∧ connected s2 = false ∧
  sockets s2 = <[k := {| ws_promise := ws_promise ws; ws_sent := ws_sent ws;
                         ws_closed := true |}]> (sockets s) ∧
  log s2 = log s ++ [UnhandledRejection ErrSocketNotCreated] ∧
  subjects s2 !! subject = Some (fresh_subject id []) ∧
  replies s2 !! id = Some subject ∧
  microtasks s2 = [].
Proof.
  intros Hcp Hc Hq Hk Hws. rewrite sendMessage_connected by done. cbv zeta.
  fields. rewrite Hq. cbn [app]. split; [done|].
  unfold turn, handle, disconnect. fields. rewrite Hk, Hws.
  erewrite drain_cons by (fields; reflexivity). cbn [drain run_cont].
  unfold send, add_log. fields.
  split_and!; try done.
  - rewrite lookup_app_r by done. by rewrite Nat.sub_diag.
  - apply lookup_insert_eq.
Qed.

Lemma settle_pending p o ks s :
  promises s !! p = Some (Pending ks) →
  settle p o s =
    set_microtasks (microtasks s ++ map (λ k, (k, o)) ks)
      (set_promises (<[p := Settled o]> (promises s)) s).
Proof. intros H. unfold settle. by rewrite H. Qed.

(** An error handed to a subject whose only subscriber is the one of
    [firstAndClose]. *)
Lemma error_only_first sid id p e s :
  subjects s !! sid = Some (fresh_subject id [ObsFirst p]) →
  promises s !! p = Some (Pending []) →
  error sid e s =
    set_replies (delete id (replies s))
      (set_teardownCalls (teardownCalls s ++ [TdDeleteReply id])
         (set_promises (<[p := Settled (Rejected e)]> (promises s))
            (set_subjects (<[sid := {| teardown := TdDeleteReply id; isStopped := true;
                                       thrownError := Some e; observers := [] |}]> (subjects s))
               s))).
Proof.
  intros Hs Hp. unfold error. rewrite Hs.
  cbn [fresh_subject teardown observers error_observers complete_observers].
  unfold set_subject. rewrite reject_pending by done. cbn [tearDown]. by state_eq.
Qed.

(** The state [sendMessage(m).firstAndClose()] leaves on a client that
    has to connect first. *)
Lemma sendMessage_firstAndClose_idle m s :
  connectionPromise s = None → connected s = false →
  let id := js_incr (messageId s) in
  let sid := length (subjects s) in
  let out := length (promises s) in
  sendMessage_firstAndClose m s =
    (sid, S (S out),
     set_subjects (subjects s ++ [fresh_subject id [ObsFirst (S (S out))]])
       (set_promises (promises s ++ [Pending [KSend (CmRequest id m) sid];
                                     Pending [KConnectTry out]; Pending []])
          (set_socket (Some (length (sockets s)))
             (set_sockets (sockets s ++ [{| ws_promise := S out; ws_sent := [];
                                            ws_closed := false |}])
                (set_connectionPromise (Some (S out))
                   (set_connectionTries (js_incr (connectionTries s))
                      (set_replies (<[id := sid]> (replies s))
                         (set_messageId id s)))))))).
Proof.
  intros Hcp Hc. cbv zeta. unfold sendMessage_firstAndClose.
  rewrite sendMessage_idle by done. cbv zeta.
  unfold firstAndClose, new_promise, subscribe. fields.
  rewrite lookup_app_r by done. rewrite Nat.sub_diag.
  cbn [lookup list_lookup fresh_subject thrownError isStopped teardown observers app].
  unfold set_subject. fields.
  rewrite insert_app_r_alt by done. rewrite Nat.sub_diag. cbn [insert list_insert].
  rewrite length_app. cbn [length].
  replace (length (promises s) + 2) with (S (S (length (promises s)))) by lia.
  f_equal. state_eq. by rewrite <- (assoc_L (++)).
Qed.

(** The first connection attempt fails while a one-shot exchange waits
    for it. *)
Lemma first_attempt_fails_one_shot (s : state) (m : ClientMessageAll) (reason : string)
    (id : Z) (sock A out p sid : nat) (ws : WebSocket) :
  sockets s !! sock = Some ws → ws_promise ws = A →
  connectionTries s = 1%Z → microtasks s = [] →
  promises s !! A = Some (Pending [KConnectTry out]) →
  promises s !! out = Some (Pending [KSend m sid]) →
  promises s !! p = Some (Pending []) →
  A ≠ out → A ≠ p → out ≠ p →
  subjects s !! sid = Some (fresh_subject id [ObsFirst p]) →
  let e := ErrCouldNotConnect reason in
  let s' := turn 2 (ESocketError sock reason) s in
  promises s' !! p = Some (Settled (Rejected e)) ∧
  replies s' = delete id (replies s) ∧
  subjects s' = <[sid := {| teardown := TdDeleteReply id; isStopped := true;
                            thrownError := Some e; observers := [] |}]> (subjects s) ∧
  sockets s' = sockets s ∧ connectionPromise s' = None ∧ microtasks s' = [].
Proof.
  intros Hws HA Htr Hq HpA HpO HpF Hne1 Hne2 Hne3 Hsub e s'.
  assert (Hlp : p < length (promises s)) by by eapply lookup_lt_Some.
  assert (∃ s2, s' = s2 ∧
            s2 = set_replies (delete id (replies s))
                   (set_teardownCalls (teardownCalls s ++ [TdDeleteReply id])
                      (set_promises (<[p := Settled (Rejected e)]>
                                       (<[out := Settled (Rejected e)]>
                                          (<[A := Settled (Rejected e)]> (promises s))))
                         (set_subjects (<[sid := {| teardown := TdDeleteReply id;
                                                    isStopped := true; thrownError := Some e;
                                                    observers := [] |}]> (subjects s))
                            (set_connectionPromise None (set_connected false s))))))
    as (s2 & -> & ->).
  { eexists. split; [reflexivity|]. subst s'.
    unfold turn, handle, socket_onerror. rewrite Hws, HA.
    change (connectionTries (set_connected false s)) with (connectionTries s).
    rewrite Htr. change (1 =? 1)%Z with true. cbv iota.
    unfold reject.
    rewrite (settle_pending A _ [KConnectTry out] (set_connected false s)) by done.
    fields. rewrite Hq. cbn [map app].
    (* the caller of [connect] rejects *)
    erewrite drain_cons by (fields; reflexivity). cbn [run_cont]. unfold reject.
    erewrite settle_pending; last first.
    { fields. rewrite list_lookup_insert_ne by done. exact HpO. }
    fields. cbn [map app].
    (* the error is handed to the subject *)
    erewrite drain_cons by (fields; reflexivity). cbn [drain run_cont].
    rewrite (error_only_first sid id p); [|done|]; last first.
    { fields. rewrite !list_lookup_insert_ne by done. exact HpF. }
    by state_eq. }
  fields. split_and!; try done.
  apply list_lookup_insert_eq. by rewrite !length_insert.
Qed.

(** X9.  A one-shot exchange ([sendMessage(...).firstAndClose()], as
    in [getActionTypes] and [authenticate]) started on a client that has
    to connect first: when the first connection attempt fails, the
    promise rejects with the connection error, the exchange is torn down
    (the routing entry is removed and the subject is stopped), and
    nothing was sent. *)
Theorem one_shot_rejects_when_first_attempt_fails (s : state) (m : ClientMessageWithoutId)
    (reason : string) :
  connectionPromise s = None → connected s = false → microtasks s = [] →
  connectionTries s = 0%Z →
  let '(subject, p, s1) := sendMessage_firstAndClose m s in
  let id := js_incr (messageId s) in
  let sock := length (sockets s) in
  let s2 := turn 2 (ESocketError sock reason) s1 in
  replies s1 !! id = Some subject ∧ promises s1 !! p = Some (Pending []) ∧
  promises s2 !! p = Some (Settled (Rejected (ErrCouldNotConnect reason))) ∧
  replies s2 !! id = None ∧
  subjects s2 !! subject =
    Some {| teardown := TdDeleteReply id; isStopped := true;
            thrownError := Some (ErrCouldNotConnect reason); observers := [] |} ∧
  sockets s2 = sockets s ++ [{| ws_promise := S (length (promises s)); ws_sent := [];
                                ws_closed := false |}] ∧
  connectionPromise s2 = None ∧ microtasks s2 = [].
Proof.
  intros Hcp Hc Hq Htr. rewrite sendMessage_firstAndClose_idle by done. cbv zeta.
  set (id := js_incr (messageId s)). set (P := length (promises s)).
  set (S0 := length (subjects s)). set (e := ErrCouldNotConnect reason).
  set (s1 := set_subjects _ _).
  assert (Hp1 : promises s1 = promises s ++ [Pending [KSend (CmRequest id m) S0];
                                             Pending [KConnectTry P]; Pending []]) by done.
  assert (Hsub1 : subjects s1 = subjects s ++ [fresh_subject id [ObsFirst (S (S P))]]) by done.
  assert (Hsk1 : sockets s1 = sockets s ++ [{| ws_promise := S P; ws_sent := [];
                                               ws_closed := false |}]) by done.
  assert (Hr1 : replies s1 = <[id := S0]> (replies s)) by done.
  assert (Htr1 : connectionTries s1 = 1%Z) by (by subst s1; fields; rewrite Htr).
  assert (Hq1 : microtasks s1 = []) by done.
  clearbody s1.
  assert (HpA : promises s1 !! S P = Some (Pending [KConnectTry P])).
  { rewrite Hp1. rewrite lookup_app_r by (subst P; lia).
    subst P. by replace (S (length (promises s)) - length (promises s)) with 1 by lia. }
  assert (HpO : promises s1 !! P = Some (Pending [KSend (CmRequest id m) S0])).
  { rewrite Hp1. rewrite lookup_app_r by done. subst P. by rewrite Nat.sub_diag. }
  assert (HpF : promises s1 !! S (S P) = Some (Pending [])).
  { rewrite Hp1. rewrite lookup_app_r by (subst P; lia).
    subst P. by replace (S (S (length (promises s))) - length (promises s)) with 2 by lia. }
  assert (HsubF : subjects s1 !! S0 = Some (fresh_subject id [ObsFirst (S (S P))])).
  { rewrite Hsub1. rewrite lookup_app_r by done. subst S0. by rewrite Nat.sub_diag. }
  assert (Hws1 : sockets s1 !! length (sockets s) =
                   Some {| ws_promise := S P; ws_sent := []; ws_closed := false |}).
  { rewrite Hsk1. rewrite lookup_app_r by done. by rewrite Nat.sub_diag. }
  split; [rewrite Hr1; apply lookup_insert_eq|]. split; [done|].
  destruct (first_attempt_fails_one_shot s1 (CmRequest id m) reason id (length (sockets s))
              (S P) P (S (S P)) S0 _ Hws1 eq_refl Htr1 Hq1 HpA HpO HpF
              ltac:(lia) ltac:(lia) ltac:(lia) HsubF)
    as (Hp2 & Hr2 & Hsub2 & Hsk2 & Hcp2 & Hq2).
  rewrite Hr2, Hsub2, Hsk2, Hsk1.
  split_and!; try done.
  - apply lookup_delete_eq.
  - apply list_lookup_insert_eq. by eapply lookup_lt_Some.
Qed.

(** * Disconnecting during an attempt *)

(** X10.  [disconnect()] closes and forgets the socket but leaves the
    promise of a connection attempt in flight where it is.  A caller of
    [connect()] that comes afterwards therefore joins that attempt: it
    creates no socket, counts no try and stays pending, and the client
    has no socket to send on. *)
Theorem disconnect_keeps_attempt_in_flight (s : state) (cp k : nat) (ks : list cont)
    (ws : WebSocket) (m : ClientMessageAll) :
  connectionPromise s = Some cp → promises s !! cp = Some (Pending ks) →
  socket s = Some k → sockets s !! k = Some ws →
  let s1 := disconnect s in
  let '(out, s2) := connect s1 in
  connectionPromise s1 = Some cp ∧ socket s1 = None ∧
  sockets s1 = <[k := {| ws_promise := ws_promise ws; ws_sent := ws_sent ws;
                         ws_closed := true |}]> (sockets s) ∧
  promises s1 = promises s ∧
  sockets s2 = sockets s1 ∧ connectionTries s2 = connectionTries s ∧
  promises s2 !! out = Some (Pending []) ∧
  promises s2 !! cp = Some (Pending (ks ++ [KConnectWhile out])) ∧
  microtasks s2 = microtasks s ∧
  send m s2 = inl ErrSocketNotCreated.
Proof.
  intros Hcp Hp Hk Hws s1.
  assert (Hlt : cp < length (promises s)) by by eapply lookup_lt_Some.
  assert (Hs1 : s1 = set_socket None
                       (set_sockets (<[k := {| ws_promise := ws_promise ws; ws_sent := ws_sent ws;
                                               ws_closed := true |}]> (sockets s))
                          (set_loggedIn false (set_connected false s)))).
  { subst s1. unfold disconnect. fields. by rewrite Hk, Hws. }
  clearbody s1. subst s1.
  rewrite (connect_join cp ks) by done. fields.
  split_and!; try done.
  - rewrite list_lookup_insert_ne by lia. rewrite lookup_app_r by done.
    by rewrite Nat.sub_diag.
  - apply list_lookup_insert_eq. rewrite length_app. lia.
Qed.

(** * Results that are entities *)

(** X11.  A ['next/json'] reply to a call whose declared return type
    is an entity.  If the entity class is registered with the client, the
    call resolves with the value converted to that class (element by
    element for an array) and the exchange stays open.  If it is not, the
    call rejects, the exchange is closed (the routing entry is removed and
    the subject completed), and nothing is sent. *)
Theorem stream_entity_result (s : state) (id : Z) (sid c : nat) (call : StreamCall)
    (t : ActionTypes) (v : json) :
  replies s !! id = Some sid →
  subjects s !! sid = Some (fresh_subject id [ObsStream c]) →
  calls s !! c = Some call →
  promises s !! sc_promise call = Some (Pending []) →
  sc_types call = Some t → at_type (returnType t) = "Entity" →
  let entityName := default "undefined" (at_entityName (returnType t)) in
  let s1 := onMessage (Some {| sm_id := id; sm_body := SmNextJson v |}) s in
  sockets s1 = sockets s ∧
  if bool_decide (entityName ∈ RegisteredEntities s) then
    promises s1 !! sc_promise call =
      Some (Settled (Fulfilled (VJson (plainToClassAll (at_partial (returnType t)) entityName v)))) ∧
    replies s1 !! id = Some sid ∧ subjects s1 = subjects s
  else
    promises s1 !! sc_promise call =
      Some (Settled (Rejected (ErrEntityNotKnown (at_entityName (returnType t))))) ∧
    replies s1 !! id = None ∧
    subjects s1 !! sid = Some (stopped (fresh_subject id [ObsStream c])).
Proof.
  intros Hr Hs Hc Hp Ht Hentity entityName s1.
  assert (Hlp : sc_promise call < length (promises s)) by by eapply lookup_lt_Some.
  assert (Hls : sid < length (subjects s)) by by eapply lookup_lt_Some.
  assert (Hstream : Forall (λ o, ∃ c, o = ObsStream c) [ObsStream c])
    by (repeat constructor; by eexists).
  subst s1. rewrite (onMessage_stream_reply id sid c) by done.
  unfold stream_reply. rewrite Hc. cbn [sm_body].
  unfold deserializeResult. rewrite Ht, Hentity.
  change (String.eqb "Entity" "Date") with false.
  change (String.eqb "Entity" "Entity") with true. cbv iota. fold entityName.
  destruct (bool_decide (entityName ∈ RegisteredEntities s)).
  - rewrite resolve_pending_nil by done. fields. split_and!; try done.
    by apply list_lookup_insert_eq.
  - rewrite reject_pending by done.
    rewrite (close_fresh id sid [ObsStream c]) by done.
    unfold resolve, settle. fields. rewrite list_lookup_insert_eq by done. fields.
    split_and!; try done.
    + by apply list_lookup_insert_eq.
    + apply lookup_delete_eq.
    + by apply list_lookup_insert_eq.
Qed.

Lemma close_rejects_pending_firstAndClose_witness :
  promises (close 0 one_shot_exchange) !! 4 = Some (Settled (Rejected EmptyError)) ∧
  teardownCalls (close 0 one_shot_exchange) = [TdDeleteReply 1; TdDeleteReply 1].
Proof.
  destruct (close_rejects_pending_firstAndClose one_shot_exchange 0 4 1
              ltac:(by vm_compute) ltac:(by vm_compute)) as (Hp & _ & _ & Ht & _).
  split; [exact Hp|exact Ht].
Defined.


Lemma open_resolves_every_waiting_caller_witness :
  let s2 := turn 4 (ESocketOpen 0) (connects 3 (init None ∅)).2 in
  (connects 3 (init None ∅)).1 = [0; 2; 3] ∧
  connected s2 = true ∧ connectionTries s2 = 0%Z ∧
  promises s2 !! 3 = Some (Settled (Fulfilled VUndefined)).
Proof.
  pose proof (open_resolves_every_waiting_caller (init None ∅) 2
                eq_refl eq_refl eq_refl eq_refl) as H.
  vm_compute in H. destruct H as (Hc & Htr & _ & _ & _ & _ & Hful & _).
  split; [reflexivity|]. split; [exact Hc|]. split; [exact Htr|].
  exact (Hful 3 (list_elem_of_further _ _ _ (list_elem_of_further _ _ _ (list_elem_of_here _ _)))).
Defined.

Lemma stream_rejects_surplus_arguments_witness :
  let '(out, s1) := stream "user" "get" [JRaw "peter"] typed_client in
  (∃ e, promises (drain 1 s1) !! out = Some (Settled (Rejected e))) ∧
  messageId (drain 1 s1) = 1%Z.
Proof.
  pose proof (stream_rejects_surplus_arguments typed_client "user" "get" [JRaw "peter"]
                {| parameters := []; returnType := string_type |}
                ltac:(by vm_compute) ltac:(by vm_compute) ltac:(vm_compute; lia)) as H.
  destruct (stream "user" "get" [JRaw "peter"] typed_client) as [out s1].
  destruct H as (_ & He & _ & Hm & _). split; [exact He|exact Hm].
Defined.

Lemma stream_plain_value_exchange_witness :
  let s1 := onMessage (Some {| sm_id := 2; sm_body := SmNextJson (JRaw "peter") |}) awaiting_value in
  let s2 := onMessage (Some {| sm_id := 2; sm_body := SmComplete |}) s1 in
  promises s1 !! 3 = Some (Settled (Fulfilled (VJson (JRaw "peter")))) ∧
  replies s1 !! 2%Z = Some 1 ∧ replies s2 !! 2%Z = None.
Proof.
  destruct (stream_plain_value_exchange awaiting_value 2 1 0 (get_call None) (JRaw "peter") "boom"
              ltac:(by vm_compute) ltac:(by vm_compute) ltac:(by vm_compute)
              ltac:(by vm_compute) ltac:(by eexists) eq_refl eq_refl)
    as ((Hp & Hr & _) & (_ & Hr2 & _) & _).
  split; [exact Hp|]. split; [exact Hr|exact Hr2].
Defined.


Lemma disconnect_overtakes_pending_frame_witness :
  let '(subject, s1) := sendMessage actionTypes_request connected_client in
  let s2 := turn 1 EDisconnect s1 in
  ws_sent <$> sockets s2 = [[]] ∧
  log s2 = [UnhandledRejection ErrSocketNotCreated] ∧
  replies s2 !! 1%Z = Some subject.
Proof.
  pose proof (disconnect_overtakes_pending_frame connected_client actionTypes_request 0
                open_socket ltac:(by vm_compute) ltac:(by vm_compute) ltac:(by vm_compute)
                ltac:(by vm_compute) ltac:(by vm_compute)) as H.
  destruct (sendMessage actionTypes_request connected_client) as [subject s1].
  cbv zeta in H. destruct H as (_ & _ & _ & Hsk & Hl & _ & Hr & _).
  split; [rewrite Hsk; reflexivity|]. split; [exact Hl|exact Hr].
Defined.

Lemma one_shot_rejects_when_first_attempt_fails_witness :
  let '(subject, p, s1) := sendMessage_firstAndClose actionTypes_request (init None ∅) in
  let s2 := turn 2 (ESocketError 0 "refused") s1 in
  promises s2 !! p = Some (Settled (Rejected (ErrCouldNotConnect "refused"))) ∧
  replies s2 !! 1%Z = None.
Proof.
  pose proof (one_shot_rejects_when_first_attempt_fails (init None ∅) actionTypes_request "refused"
                eq_refl eq_refl eq_refl eq_refl) as H.
  destruct (sendMessage_firstAndClose actionTypes_request (init None ∅)) as [[subject p] s1].
  destruct H as (_ & _ & Hp & Hr & _). split; [exact Hp|exact Hr].
Defined.

Lemma disconnect_keeps_attempt_in_flight_witness :
  let '(out, s2) := connect (disconnect connecting_client) in
  sockets s2 = [{| ws_promise := 1; ws_sent := []; ws_closed := true |}] ∧
  promises s2 !! out = Some (Pending []) ∧
  promises s2 !! 1 = Some (Pending [KConnectTry 0; KConnectWhile out]).
Proof.
  pose proof (disconnect_keeps_attempt_in_flight connecting_client 1 0 [KConnectTry 0]
                open_socket (CmEntityUnsubscribe 1)
                ltac:(by vm_compute) ltac:(by vm_compute) ltac:(by vm_compute)
                ltac:(by vm_compute)) as H.
  cbv zeta in H.
  destruct (connect (disconnect connecting_client)) as [out s2].
  destruct H as (_ & _ & Hsk1 & _ & Hsk2 & _ & Hout & Hcp & _).
  split; [rewrite Hsk2, Hsk1; reflexivity|]. split; [exact Hout|exact Hcp].
Defined.

Lemma stream_entity_result_witness :
  let s1 := onMessage (Some {| sm_id := 2; sm_body := SmNextJson (JRaw "peter") |})
              (awaiting_user ∅) in
  promises s1 !! 3 = Some (Settled (Rejected (ErrEntityNotKnown (Some "user")))) ∧
  replies s1 !! 2%Z = None.
Proof.
  pose proof (stream_entity_result (awaiting_user ∅) 2 1 0 user_call
                {| parameters := []; returnType := user_type |} (JRaw "peter")
                ltac:(by vm_compute) ltac:(by vm_compute) ltac:(by vm_compute)
                ltac:(by vm_compute) eq_refl eq_refl) as H.
  cbv zeta in H. destruct H as [_ H].
  change (bool_decide (default "undefined" (at_entityName (returnType
            {| parameters := []; returnType := user_type |})) ∈
          RegisteredEntities (awaiting_user ∅))) with false in H.
  destruct H as (Hp & Hr & _). split; [exact Hp|exact Hr].
Defined.
